(** * backend/server.js: the two routes of the signup backend

    A shallow embedding of [src/backend/server.js].  The file has two route
    handlers: [GET /api/status], which answers with a constant object, and
    [POST /api/create], which drives a headless browser through a signup form
    and answers with a classification of what it saw.

    The handlers are embedded as computations in a small state-and-exception
    monad.  Everything the handler cannot decide by itself (whether a
    Puppeteer call resolves or rejects, what the page looks like after the
    submit, what the wall clock shows) is read from a [World]; every effect
    the handler performs is appended, in program order, to a [trace].

    Two things are taken from the libraries the handler runs on and are not
    in the source: [req.body] is an object (the JSON middleware parsed it),
    and a thrown value is an [Error] with a string [message] (as Puppeteer
    and the JavaScript runtime throw them).  What Express does with a
    handler whose promise is rejected is outside the model: the model stops
    at the completion of the handler. *)

From Stdlib Require Import String Ascii List Bool Arith ZArith Lia.
Import ListNotations.
Local Open Scope string_scope.
Local Open Scope list_scope.

Set Implicit Arguments.
Set Warnings "-register-all".

(* ================================================================== *)
(** ** JavaScript strings *)
(* ================================================================== *)

Module JsString.

(** [s.includes(sub)] *)
Fixpoint includes (sub s : string) : bool :=
  if String.prefix sub s then true
  else match s with
       | EmptyString => false
       | String _ s' => includes sub s'
       end.

(** [s.split(sep)] for a one-character separator. *)
Fixpoint split (sep : ascii) (s : string) : list string :=
  match s with
  | EmptyString => [EmptyString]
  | String c s' =>
      if Ascii.eqb c sep then EmptyString :: split sep s'
      else match split sep s' with
           | p :: ps => String c p :: ps
           | [] => [String c EmptyString]
           end
  end.

(** [parts.join(sep)], the inverse of [split]. *)
Fixpoint join (sep : ascii) (parts : list string) : string :=
  match parts with
  | [] => EmptyString
  | [p] => p
  | p :: ps => p ++ String sep (join sep ps)
  end.

Definition upper (c : ascii) : ascii :=
  let n := nat_of_ascii c in
  if ((97 <=? n) && (n <=? 122))%nat then ascii_of_nat (n - 32) else c.

(** [s.toUpperCase()] on the ASCII range, which is all the handler feeds it
    (the log categories are literals). *)
Fixpoint toUpperCase (s : string) : string :=
  match s with
  | EmptyString => EmptyString
  | String c s' => String (upper c) (toUpperCase s')
  end.

(** Number of occurrences of a character. *)
Fixpoint count (sep : ascii) (s : string) : nat :=
  match s with
  | EmptyString => 0
  | String c s' => (if Ascii.eqb c sep then 1 else 0) + count sep s'
  end.

End JsString.

(* ================================================================== *)
(** ** Values, errors, JSON *)
(* ================================================================== *)

(** A thrown value.  Puppeteer and the JavaScript runtime throw [Error]
    objects; the handler reads nothing of them but [error.message]. *)
Module Error.
Record t : Type := make { message : string }.
End Error.

Definition TypeError (msg : string) : Error.t := Error.make msg.

(** A field of [req.body] as [express.json()] delivers it.  An absent key
    destructures to [undefined].  A number is kept as the decimal text
    JavaScript prints for it; an object or array is kept as the outcome of
    coercing it to a string, which is all a template literal asks of it (the
    coercion of an object whose [toString] key is not callable throws). *)
Inductive Value : Type :=
| VUndefined
| VNull
| VBool (b : bool)
| VNumber (text : string)
| VString (s : string)
| VObject (coerced : Error.t + string).

(** ToBoolean *)
Definition truthy (v : Value) : bool :=
  match v with
  | VUndefined | VNull => false
  | VBool b => b
  | VNumber text => negb (String.eqb text "0" || String.eqb text "NaN")
  | VString s => negb (String.eqb s EmptyString)
  | VObject _ => true
  end.

(** ToString, as a template literal [`${v}`] applies it. *)
Definition ToString (v : Value) : Error.t + string :=
  match v with
  | VUndefined => inr "undefined"
  | VNull => inr "null"
  | VBool true => inr "true"
  | VBool false => inr "false"
  | VNumber text => inr text
  | VString s => inr s
  | VObject coerced => coerced
  end.

(** What [res.json] serialises.  Object keys keep their insertion order. *)
Inductive Json : Type :=
| JBool (b : bool)
| JString (s : string)
| JArray (items : list Json)
| JObject (fields : list (string * Json)).

Fixpoint field (key : string) (fields : list (string * Json)) : option Json :=
  match fields with
  | [] => None
  | (k, v) :: rest => if String.eqb k key then Some v else field key rest
  end.

Definition get (key : string) (j : Json) : option Json :=
  match j with
  | JObject fields => field key fields
  | _ => None
  end.

Definition keys (j : Json) : list string :=
  match j with
  | JObject fields => map fst fields
  | _ => []
  end.

(** One record of the per-request log: [{ message: msg, type, timestamp }]. *)
Record LogEntry : Type := mkLogEntry {
  message : string;
  type : string;
  timestamp : string
}.

Definition entry_json (e : LogEntry) : Json :=
  JObject [("message", JString (message e));
           ("type", JString (type e));
           ("timestamp", JString (timestamp e))].

Definition logs_json (log : list LogEntry) : Json := JArray (map entry_json log).

(** The values the handler gives to the [type] of a record. *)
Definition categories : list string :=
  ["info"; "network"; "warning"; "success"; "error"].

(* ================================================================== *)
(** ** The outside world and the effects of the handler *)
(* ================================================================== *)

(** An element handle returned by [page.$]. *)
Definition Handle : Type := nat.

(** The browser object [puppeteer.launch] resolves to. *)
Definition Browser : Type := nat.

(** The effects of a handler, in the order it performs them. *)
Inductive Event : Type :=
| EConsoleLog (line : string)
| EPush (entry : LogEntry)
| ELaunch (headless : string) (args : list string)
| ENewPage
| EAuthenticate (username password : string)
| EGoto (url waitUntil : string) (timeout : Z)
| EWaitForSelector (selector : string) (timeout : option Z)
| EType (selector : string) (text : Value) (delay : option Z)
| EQuery (selector : string)
| EHandleClick (h : Handle)
| ESelect (selector : string) (value : Value)
| EClick (selector : string)
| EUrl
| ETextContent (h : Handle)
| EFrames
| EClose (b : Browser)
| ESleep (ms : Z)
| ERespond (status : Z) (body : Json).

(** The outcome of every call the handler leaves to Puppeteer, the page and
    the clock.  [inl e] is a rejected promise (or a synchronous throw) with
    the error [e]; [inr v] is the value the call resolves to.  Each call site
    of the handler runs at most once per request and has a field of its own;
    [browser.close()] has three call sites and is indexed by the number of
    earlier calls, the clock by the number of earlier log records.  The
    handler is deterministic and the theorems quantify over all worlds, so an
    outcome may be thought of as depending on the arguments of the call and
    on everything that happened before it. *)
Record World : Type := mkWorld {
  clock : nat -> string;
  on_launch : Error.t + Browser;
  on_newPage : Error.t + unit;
  on_authenticate : Error.t + unit;
  on_goto : Error.t + unit;
  on_wait_email : Error.t + unit;
  on_type_email : Error.t + unit;
  on_query_next : Error.t + option Handle;
  on_click_next : Error.t + unit;
  on_wait_password : Error.t + unit;
  on_type_password : Error.t + unit;
  on_type_year : Error.t + unit;
  on_select_month : Error.t + unit;
  on_type_day : Error.t + unit;
  on_click_submit : Error.t + unit;
  on_url : Error.t + string;
  on_query_error : Error.t + option Handle;
  on_textContent : Error.t + string;
  on_frames : Error.t + list string;
  on_close : nat -> Error.t + unit
}.

(** The variables of one request: the [log] array, the [browser] variable
    ([None] is [null]) and the effects so far. *)
Record State : Type := mkState {
  log : list LogEntry;
  browser : option Browser;
  trace : list Event
}.

Definition initial : State := mkState [] None [].

Definition emit (ev : Event) (s : State) : State :=
  mkState (log s) (browser s) (trace s ++ [ev]).

(* ================================================================== *)
(** ** The monad of handler code *)
(* ================================================================== *)

Definition M (A : Type) : Type := World -> State -> (Error.t + A) * State.

Definition ret {A} (a : A) : M A := fun _ s => (inr a, s).

Definition throw {A} (e : Error.t) : M A := fun _ s => (inl e, s).

Definition bind {A B} (m : M A) (k : A -> M B) : M B :=
  fun w s =>
    match m w s with
    | (inr a, s') => k a w s'
    | (inl e, s') => (inl e, s')
    end.

Declare Scope js_scope.
Delimit Scope js_scope with js.
Notation "x <- m ;; k" := (bind m (fun x => k))
  (at level 61, m at next level, right associativity) : js_scope.
Notation "m ;; k" := (bind m (fun _ => k))
  (at level 61, right associativity) : js_scope.
Local Open Scope js_scope.

(** [try { body } catch (error) { handler }] *)
Definition try_catch {A} (body : M A) (handler : Error.t -> M A) : M A :=
  fun w s =>
    match body w s with
    | (inr a, s') => (inr a, s')
    | (inl e, s') => handler e w s'
    end.

(** [try { body } finally { cleanup }]: the cleanup runs whatever the body
    did, and an error of the cleanup replaces the body's completion. *)
Definition try_finally {A} (body : M A) (cleanup : M unit) : M A :=
  fun w s =>
    let (r, s') := body w s in
    match cleanup w s' with
    | (inr _, s'') => (r, s'')
    | (inl e, s'') => (inl e, s'')
    end.

(** An external call: record it, then complete as the world says. *)
Definition call {A} (ev : Event) (outcome : World -> Error.t + A) : M A :=
  fun w s => (outcome w, emit ev s).

(** An effect that cannot fail. *)
Definition effect (ev : Event) : M unit := fun _ s => (inr tt, emit ev s).

(** Lift a pure computation that may throw. *)
Definition lift {A} (r : Error.t + A) : M A := fun _ s => (r, s).

(** [const sleep = (ms) => new Promise(resolve => setTimeout(resolve, ms))] *)
Definition sleep (ms : Z) : M unit := effect (ESleep ms).

(** [res.status(code).json(body)]; [res.json(body)] is status 200. *)
Definition res_json (status : Z) (body : Json) : M unit :=
  effect (ERespond status body).

(* ================================================================== *)
(** ** GET /api/status *)
(* ================================================================== *)

Definition status_body : Json :=
  JObject [("status", JString "online");
           ("mode", JString "puppeteer");
           ("version", JString "5.0.0")].

(** [app.get('/api/status', (req, res) => { res.json({...}) })] *)
Definition api_status {Req : Type} (req : Req) : M unit :=
  res_json 200 status_body.

(* ================================================================== *)
(** ** POST /api/create *)
(* ================================================================== *)

(** [const { email, password, birthYear, birthMonth, birthDay, gender, proxy }
    = req.body]: the body is the object the JSON middleware parsed; a key
    the caller left out is [VUndefined]. *)
Record Body : Type := mkBody {
  email : Value;
  password : Value;
  birthYear : Value;
  birthMonth : Value;
  birthDay : Value;
  gender : Value;
  proxy : Value
}.

(** The double quote, for the selectors that contain one. *)
Definition dq : string := String (ascii_of_nat 34) EmptyString.

Definition email_selector : string :=
  "input#email, input[name=" ++ dq ++ "email" ++ dq ++ "]".
Definition next_selector : string :=
  "button[data-testid=" ++ dq ++ "submit" ++ dq ++ "]".
Definition password_selector : string :=
  "input#password, input[type=" ++ dq ++ "password" ++ dq ++ "]".
Definition submit_selector : string :=
  "button[type=" ++ dq ++ "submit" ++ dq ++ "]".
Definition error_selector : string :=
  "div[aria-label=" ++ dq ++ "Error" ++ dq ++ "], div[class*=" ++ dq ++ "Error" ++ dq ++ "]".

Definition captcha_message : string :=
  "Captcha Challenge. You need a residential proxy or manual intervention.".

Definition get_log : M (list LogEntry) := fun _ s => (inr (log s), s).

(** [const addLog = (msg, type = 'info') => { console.log(...); log.push(...) }] *)
Definition addLog (msg type : string) : M unit :=
  fun w s =>
    let entry := mkLogEntry msg type (clock w (length (log s))) in
    (inr tt,
     mkState (log s ++ [entry]) (browser s)
             (trace s ++ [EConsoleLog ("[" ++ JsString.toUpperCase type ++ "] " ++ msg);
                          EPush entry])).

(** [browser = ...] *)
Definition set_browser (b : Browser) : M unit :=
  fun _ s => (inr tt, mkState (log s) (Some b) (trace s)).

Definition closes (tr : list Event) : nat :=
  length (filter (fun ev => match ev with EClose _ => true | _ => false end) tr).

(** [await browser.close()] *)
Definition browser_close : M unit :=
  fun w s =>
    match browser s with
    | Some b => (on_close w (closes (trace s)), emit (EClose b) s)
    | None => (inl (TypeError "Cannot read properties of null (reading 'close')"), s)
    end.

(** [if (browser) await browser.close()] *)
Definition close_if_launched : M unit :=
  fun w s =>
    match browser s with
    | Some _ => browser_close w s
    | None => (inr tt, s)
    end.

(** [proxy.split(':')]: only a string has the method. *)
Definition proxy_split (v : Value) : M (list string) :=
  match v with
  | VString s => ret (JsString.split ":" s)
  | _ => throw (TypeError "proxy.split is not a function")
  end.

Definition base_args : list string :=
  ["--no-sandbox"; "--disable-setuid-sandbox"; "--disable-dev-shm-usage";
   "--window-size=1280,800"].

(** [`--proxy-server=${parts[0]}:${parts[1]}`]; an index past the end of an
    array reads [undefined]. *)
Definition proxy_server (parts : list string) : string :=
  "--proxy-server=" ++ nth 0 parts "undefined" ++ ":" ++ nth 1 parts "undefined".

(** Lines 38-52: the launch arguments. *)
Definition launch_args (proxy : Value) : M (list string) :=
  if truthy proxy then
    parts <- proxy_split proxy ;;
    if (2 <=? length parts)%nat then ret (base_args ++ [proxy_server parts])
    else ret base_args
  else ret base_args.

(** Lines 62-67: proxy authentication. *)
Definition proxy_auth (proxy : Value) : M unit :=
  if truthy proxy then
    parts <- proxy_split proxy ;;
    if (length parts =? 4)%nat then
      call (EAuthenticate (nth 2 parts "undefined") (nth 3 parts "undefined"))
           on_authenticate
    else ret tt
  else ret tt.

(** Lines 105-111: the inner [try]/[catch] around the profile inputs. *)
Definition fill_profile (b : Body) : M unit :=
  try_catch
    (call (EType "input#year" (birthYear b) None) on_type_year ;;
     call (ESelect "select#month" (birthMonth b)) on_select_month ;;
     call (EType "input#day" (birthDay b) None) on_type_day)
    (fun e => addLog "Profile inputs varying, attempting fallbacks..." "warning").

(** Lines 69-119: navigate to the form, fill it in and submit it. *)
Definition fill_form (b : Body) : M unit :=
  addLog "Navigating to Spotify Signup..." "network" ;;
  call (EGoto "https://www.spotify.com/signup" "networkidle2" 60000) on_goto ;;
  addLog "Waiting for form..." "info" ;;
  call (EWaitForSelector email_selector (Some 10000%Z)) on_wait_email ;;
  call (EType email_selector (email b) (Some 100%Z)) on_type_email ;;
  addLog "Entered Email" "info" ;;
  sleep 500 ;;
  nextBtn <- call (EQuery next_selector) on_query_next ;;
  match nextBtn with
  | Some btn => call (EHandleClick btn) on_click_next ;; sleep 1000
  | None => ret tt
  end ;;
  call (EWaitForSelector password_selector None) on_wait_password ;;
  call (EType password_selector (password b) (Some 100%Z)) on_type_password ;;
  addLog "Entered Password" "info" ;;
  addLog "Filling Profile details..." "info" ;;
  fill_profile b ;;
  addLog "Clicking Submit..." "network" ;;
  call (EClick submit_selector) on_click_submit ;;
  addLog "Verifying submission..." "info" ;;
  sleep 3000.

Definition success_body (l : list LogEntry) : Json :=
  JObject [("success", JBool true); ("logs", logs_json l)].

Definition failure_body (l : list LogEntry) (error : string) : Json :=
  JObject [("success", JBool false); ("logs", logs_json l); ("error", JString error)].

Definition success_url (currentUrl : string) : bool :=
  JsString.includes "download" currentUrl
  || JsString.includes "overview" currentUrl
  || JsString.includes "account" currentUrl.

(** Lines 121-143: the classification of the page after the submit. *)
Definition classify : M unit :=
  currentUrl <- call EUrl on_url ;;
  if success_url currentUrl then
    addLog "Account Successfully Created!" "success" ;;
    browser_close ;;
    l <- get_log ;;
    res_json 200 (success_body l)
  else
    errorEl <- call (EQuery error_selector) on_query_error ;;
    errorText <- match errorEl with
                 | Some el => call (ETextContent el) on_textContent
                 | None => ret "Unknown Error"
                 end ;;
    frames <- call EFrames on_frames ;;
    match find (JsString.includes "arkoselabs") frames with
    | Some arkoseFrame =>
        addLog "FAILED: Captcha Challenge Triggered. Automation detected." "error" ;;
        l <- get_log ;;
        res_json 200 (failure_body l captcha_message)
    | None =>
        addLog ("Failed: " ++ errorText) "error" ;;
        l <- get_log ;;
        res_json 200 (failure_body l errorText)
    end.

(** Lines 36-143: the body of the outer [try]. *)
Definition signup (b : Body) : M unit :=
  who <- lift (ToString (email b)) ;;
  addLog ("Initiating Browser for: " ++ who) "info" ;;
  launchArgs <- launch_args (proxy b) ;;
  launched <- call (ELaunch "new" launchArgs) on_launch ;;
  set_browser launched ;;
  call ENewPage on_newPage ;;
  proxy_auth (proxy b) ;;
  fill_form b ;;
  classify.

(** Lines 145-148: the outer [catch]. *)
Definition on_error (error : Error.t) : M unit :=
  addLog ("Critical Error: " ++ Error.message error) "error" ;;
  close_if_launched ;;
  l <- get_log ;;
  res_json 500 (failure_body l (Error.message error)).

(** [app.post('/api/create', async (req, res) => { ... })] *)
Definition api_create (b : Body) : M unit :=
  try_finally (try_catch (signup b) on_error) close_if_launched.

(** One request served from scratch: the state the handler leaves. *)
Definition run (b : Body) (w : World) : State := snd (api_create b w initial).

(** The completion of the handler: [inl e] is a rejected handler promise. *)
Definition completion (b : Body) (w : World) : Error.t + unit :=
  fst (api_create b w initial).

Definition responses (tr : list Event) : list (Z * Json) :=
  flat_map (fun ev => match ev with ERespond st body => [(st, body)] | _ => [] end) tr.

Definition pushed (tr : list Event) : list LogEntry :=
  flat_map (fun ev => match ev with EPush e => [e] | _ => [] end) tr.

Definition launches (tr : list Event) : list (list string) :=
  flat_map (fun ev => match ev with ELaunch _ args => [args] | _ => [] end) tr.

Definition authentications (tr : list Event) : list (string * string) :=
  flat_map (fun ev => match ev with EAuthenticate u p => [(u, p)] | _ => [] end) tr.


(* ================================================================== *)
(** ** Vocabulary of the specification *)
(* ================================================================== *)

Definition Outcome (A : Type) : Type := ((Error.t + A) * State)%type.

Definition resolves {A} (r : Error.t + A) : bool :=
  match r with inr _ => true | inl _ => false end.

(** An exception escapes to the outer [catch]: the [try] body throws. *)
Definition escapes (b : Body) (w : World) (e : Error.t) : Prop :=
  exists s, signup b w initial = (inl e, s).

(** What the outer [catch] and the [finally] make of the completion of the
    [try] body. *)
Definition settle (w : World) (o : Outcome unit) : Outcome unit :=
  let (r, s) := match o with
                | (inl e, s) => on_error e w s
                | (inr u, s) => (inr u, s)
                end in
  match close_if_launched w s with
  | (inr _, s') => (r, s')
  | (inl e, s') => (inl e, s')
  end.

(** *** Kinds of events *)

Definition is_response (ev : Event) : bool :=
  match ev with ERespond _ _ => true | _ => false end.

(** The calls into Puppeteer and the timer, as opposed to what the handler
    does to its log and to the HTTP response. *)
Definition external (ev : Event) : bool :=
  match ev with
  | EConsoleLog _ | EPush _ | ERespond _ _ => false
  | _ => true
  end.

(** The external calls made once the page is up and authenticated. *)
Definition on_page (ev : Event) : bool :=
  match ev with
  | EGoto _ _ _ | EWaitForSelector _ _ | EType _ _ _ | EQuery _
  | EHandleClick _ | ESelect _ _ | EClick _ | EUrl | ETextContent _
  | EFrames | EClose _ | ESleep _ => true
  | _ => false
  end.

Definition year_event (b : Body) : Event := EType "input#year" (birthYear b) None.

Definition is_year_event (ev : Event) : bool :=
  match ev with
  | EType selector _ _ => String.eqb selector "input#year"
  | _ => false
  end.

(** *** Invariants *)

(** [m] keeps the invariant [I], whether it returns or throws. *)
Definition stable (I : State -> Prop) {A} (m : M A) : Prop :=
  forall w s, I s -> I (snd (m w s)).

(** What an invariant has to survive to be kept by the steps of the handler:
    the events in [silent] and a new log record of one of the categories. *)
Record Quiet (I : State -> Prop) (silent : Event -> bool) : Prop := {
  I_emit : forall ev s, silent ev = true -> I s -> I (emit ev s);
  I_addLog : forall msg ty w s,
      In ty categories -> I s -> I (snd (addLog msg ty w s))
}.

(** The three shapes of answer the handler sends, each built from the log as
    it stands when the answer is sent. *)
Inductive sent (s : State) : Z -> Json -> Prop :=
| sent_success : sent s 200 (success_body (log s))
| sent_classified (error : string) : sent s 200 (failure_body (log s) error)
| sent_critical (error : string) : sent s 500 (failure_body (log s) error).

Definition answering (I : State -> Prop) : Prop :=
  forall st body s, I s -> sent s st body -> I (emit (ERespond st body) s).

Definition no_response (s : State) : Prop := responses (trace s) = [].

(** *** The answers *)

(** A body with a boolean [success], an array [logs], and a string [error]
    exactly when [success] is [false]. *)
Definition well_formed (body : Json) : bool :=
  match get "success" body, get "logs" body, get "error" body with
  | Some (JBool true), Some (JArray _), None => true
  | Some (JBool false), Some (JArray _), Some (JString _) => true
  | _, _, _ => false
  end.

Definition all_well_formed (s : State) : Prop :=
  forall st body, In (st, body) (responses (trace s)) -> well_formed body = true.

(** *** The log *)

(** The [log] array holds the records pushed so far, oldest first, and every
    answer sent so far carries the records pushed before it, oldest first. *)
Definition log_in_order (s : State) : Prop :=
  log s = pushed (trace s)
  /\ (forall pre st body post,
         trace s = pre ++ ERespond st body :: post ->
         get "logs" body = Some (logs_json (pushed pre)))
  /\ forall entry, In entry (log s) -> In (type entry) categories.

(** *** The classification, in the words of the specification *)

Definition success_markers : list string := ["download"; "overview"; "account"].

Definition shows_success (url : string) : Prop :=
  exists marker, In marker success_markers /\ JsString.includes marker url = true.

Definition captcha_frame (frames : list string) : Prop :=
  exists frame, In frame frames /\ JsString.includes "arkoselabs" frame = true.

(** An answer that classifies the page the world shows after the submit. *)
Definition classified (w : World) (url : string) (body : Json) : Prop :=
  (get "success" body = Some (JBool true) <-> shows_success url)
  /\ (~ shows_success url ->
      get "success" body = Some (JBool false)
      /\ exists frames errorEl,
          on_frames w = inr frames
          /\ on_query_error w = inr errorEl
          /\ (captcha_frame frames ->
              get "error" body = Some (JString captcha_message))
          /\ (~ captcha_frame frames ->
              match errorEl with
              | Some el =>
                  exists text, on_textContent w = inr text
                               /\ get "error" body = Some (JString text)
              | None => get "error" body = Some (JString "Unknown Error")
              end)).

(** *** The proxy string *)

(** The launch arguments as a function of the proxy field. *)
Definition proxy_args (v : Value) : Error.t + list string :=
  if truthy v then
    match v with
    | VString p =>
        let parts := JsString.split ":" p in
        inr (if (2 <=? length parts)%nat then base_args ++ [proxy_server parts]
             else base_args)
    | _ => inl (TypeError "proxy.split is not a function")
    end
  else inr base_args.

(** The credentials [page.authenticate] is called with, if it is called. *)
Definition credentials (v : Value) : Error.t + option (string * string) :=
  if truthy v then
    match v with
    | VString p =>
        let parts := JsString.split ":" p in
        inr (if (length parts =? 4)%nat
             then Some (nth 2 parts "undefined", nth 3 parts "undefined")
             else None)
    | _ => inl (TypeError "proxy.split is not a function")
    end
  else inr None.

(** The launch and the authentication a request leads to. *)
Definition expected_launches (b : Body) : list (list string) :=
  match ToString (email b), proxy_args (proxy b) with
  | inr _, inr args => [args]
  | _, _ => []
  end.

Definition expected_browser (b : Body) (w : World) : option Browser :=
  match expected_launches b, on_launch w with
  | _ :: _, inr launched => Some launched
  | _, _ => None
  end.

Definition expected_authentications (b : Body) (w : World) : list (string * string) :=
  match expected_browser b w, on_newPage w, credentials (proxy b) with
  | Some _, inr _, inr (Some c) => [c]
  | _, _, _ => []
  end.

(** *** The profile inputs *)

(** The first exception among the three profile inputs, if any. *)
Definition profile_error (w : World) : option Error.t :=
  match on_type_year w, on_select_month w, on_type_day w with
  | inl e, _, _ => Some e
  | inr _, inl e, _ => Some e
  | inr _, inr _, inl e => Some e
  | inr _, inr _, inr _ => None
  end.

Definition warning (stamp : string) : LogEntry :=
  mkLogEntry "Profile inputs varying, attempting fallbacks..." "warning" stamp.

(** The state the inner [try]/[catch] leaves: the inputs are attempted in
    turn up to the first that throws, and then the warning is logged. *)
Definition after_profile (b : Body) (w : World) (s : State) : State :=
  let warn s' :=
    snd (addLog "Profile inputs varying, attempting fallbacks..." "warning" w s') in
  let s1 := emit (year_event b) s in
  match on_type_year w with
  | inl _ => warn s1
  | inr _ =>
      let s2 := emit (ESelect "select#month" (birthMonth b)) s1 in
      match on_select_month w with
      | inl _ => warn s2
      | inr _ =>
          let s3 := emit (EType "input#day" (birthDay b) None) s2 in
          match on_type_day w with
          | inl _ => warn s3
          | inr _ => s3
          end
      end
  end.

(** The profile inputs have not been attempted yet. *)
Definition no_profile_yet (s : State) : Prop :=
  forall ev, In ev (trace s) -> is_year_event ev = false.

(** Every attempt at the profile inputs is followed by the click on Submit
    and, when an input threw, by the warning in between. *)
Definition submit_follows (b : Body) (w : World) (s : State) : Prop :=
  forall pre post,
    trace s = pre ++ year_event b :: post ->
    In (EClick submit_selector) post
    /\ (profile_error w <> None -> exists stamp, In (EPush (warning stamp)) post).

(** [e] is what a step of the [try] body other than the three profile inputs
    threw. *)
Definition thrown_outside_profile (b : Body) (w : World) (e : Error.t) : Prop :=
  In (inl e)
     [ match ToString (email b) with inl x => inl x | inr _ => inr tt end;
       match proxy_args (proxy b) with inl x => inl x | inr _ => inr tt end;
       match on_launch w with inl x => inl x | inr _ => inr tt end;
       on_newPage w; on_authenticate w; on_goto w; on_wait_email w;
       on_type_email w;
       match on_query_next w with inl x => inl x | inr _ => inr tt end;
       on_click_next w; on_wait_password w; on_type_password w;
       on_click_submit w;
       match on_url w with inl x => inl x | inr _ => inr tt end;
       match on_query_error w with inl x => inl x | inr _ => inr tt end;
       match on_textContent w with inl x => inl x | inr _ => inr tt end;
       match on_frames w with inl x => inl x | inr _ => inr tt end ]
  \/ exists n, on_close w n = inl e.

(** *** Launches, authentications and the browser variable *)

Definition effects_are (ls : list (list string)) (auths : list (string * string))
           (launched : option Browser) (s : State) : Prop :=
  launches (trace s) = ls
  /\ authentications (trace s) = auths
  /\ browser s = launched.

(** The external calls of the classification, the outer [catch] and the
    [finally]. *)
Definition after_submit (ev : Event) : bool :=
  match ev with
  | EUrl | EQuery _ | ETextContent _ | EFrames | EClose _ => true
  | _ => false
  end.

Definition not_year_event (ev : Event) : bool := negb (is_year_event ev).

(** *** Example requests and worlds *)

Definition noon : nat -> string := fun _ => "12:00:00 PM".

(** A world in which the page comes up and every input but the year can be
    filled in; the rest is left open. *)
Definition world_with (launch : Error.t + Browser) (goto year : Error.t + unit)
           (url : string) (banner : option Handle) (frames : list string)
           (close : nat -> Error.t + unit) : World :=
  mkWorld noon launch (inr tt) (inr tt) goto (inr tt) (inr tt) (inr None)
          (inr tt) (inr tt) (inr tt) year (inr tt) (inr tt) (inr tt)
          (inr url) (inr banner) (inr "Email already in use") (inr frames) close.

Definition closing : nat -> Error.t + unit := fun _ => inr tt.

Definition signed_up : World :=
  world_with (inr 1) (inr tt) (inr tt)
             "https://www.spotify.com/account/overview" None [] closing.

Definition challenged : World :=
  world_with (inr 1) (inr tt) (inr tt)
             "https://www.spotify.com/signup" (Some 7)
             ["https://www.spotify.com/signup";
              "https://client-api.arkoselabs.com/fc/gc/"] closing.

Definition timed_out : World :=
  world_with (inr 1) (inl (Error.make "Navigation timeout of 60000 ms exceeded"))
             (inr tt) "about:blank" None [] closing.

Definition no_year_input : World :=
  world_with (inr 1) (inr tt)
             (inl (Error.make "No element found for selector: input#year"))
             "https://www.spotify.com/account/overview" None [] closing.

Definition alice_via (proxy : Value) : Body :=
  mkBody (VString "alice@example.com") (VString "correct horse")
         (VString "1990") (VString "7") (VString "14") (VString "female") proxy.

Definition alice : Body := alice_via VUndefined.

(** Navigation times out, and then [browser.close()] fails as well. *)
Definition stuck : World :=
  world_with (inr 1) (inl (Error.make "Navigation timeout of 60000 ms exceeded"))
             (inr tt) "about:blank" None []
             (fun _ => inl (Error.make "EPERM: operation not permitted, unlink")).

(** *** Further projections of a trace *)

Definition consoles (tr : list Event) : list string :=
  flat_map (fun ev => match ev with EConsoleLog line => [line] | _ => [] end) tr.

(** The line [addLog] prints for a record. *)
Definition console_line (entry : LogEntry) : string :=
  "[" ++ JsString.toUpperCase (type entry) ++ "] " ++ message entry.

(** The fixed pauses, in milliseconds. *)
Definition slept (tr : list Event) : Z :=
  fold_right (fun ev total => match ev with ESleep ms => (ms + total)%Z | _ => total end)
             0%Z tr.

Definition is_close (ev : Event) : bool :=
  match ev with EClose _ => true | _ => false end.

(** The external calls made before the classification. *)
Definition before_verdict (ev : Event) : bool :=
  match ev with
  | ELaunch _ _ | ENewPage | EAuthenticate _ _ | EGoto _ _ _
  | EWaitForSelector _ _ | EType _ _ _ | EQuery _ | EHandleClick _
  | ESelect _ _ | EClick _ | ESleep _ => true
  | _ => false
  end.

(** A call on the page or on the browser, as opposed to the launch, the
    pauses, the log and the answer. *)
Definition uses_browser (ev : Event) : bool :=
  match ev with
  | ENewPage | EAuthenticate _ _ | EGoto _ _ _ | EWaitForSelector _ _
  | EType _ _ _ | EQuery _ | EHandleClick _ | ESelect _ _ | EClick _
  | EUrl | ETextContent _ | EFrames | EClose _ => true
  | _ => false
  end.

Definition success_record (stamp : string) : LogEntry :=
  mkLogEntry "Account Successfully Created!" "success" stamp.

Definition critical_record (e : Error.t) (stamp : string) : LogEntry :=
  mkLogEntry ("Critical Error: " ++ Error.message e) "error" stamp.

(** The exception that keeps the browser from coming up, if any: the
    coercion of the email, the split of the proxy, or the launch itself. *)
Definition early_error (b : Body) (w : World) : option Error.t :=
  match ToString (email b), proxy_args (proxy b), on_launch w with
  | inl e, _, _ => Some e
  | inr _, inl e, _ => Some e
  | inr _, inr _, inl e => Some e
  | inr _, inr _, inr _ => None
  end.

(** Before the classification: nothing answered, nothing closed, the
    browser variable set. *)
Definition page_is_up (launched : Browser) (s : State) : Prop :=
  no_response s /\ closes (trace s) = 0 /\ browser s = Some launched.

(** What the [try] body leaves when it returns: one answer with status 200,
    whose logs are the whole log, and whose last record tells the verdict. *)
Definition verdict_reported (w : World) (s : State) : Prop :=
  exists url earlier stamp,
    on_url w = inr url
    /\ if success_url url then
         on_close w 0 = inr tt
         /\ closes (trace s) = 1
         /\ responses (trace s) = [(200%Z, success_body (log s))]
         /\ log s = earlier ++ [success_record stamp]
       else
         closes (trace s) = 0
         /\ exists error,
             responses (trace s) = [(200%Z, failure_body (log s) error)]
             /\ (log s = earlier ++ [mkLogEntry ("Failed: " ++ error) "error" stamp]
                 \/ (error = captcha_message
                     /\ log s
                        = earlier
                            ++ [mkLogEntry
                                  "FAILED: Captcha Challenge Triggered. Automation detected."
                                  "error" stamp])).

(** What the [try] body leaves when it throws [e]: nothing answered; and if
    it has called [browser.close()], then because the page showed success,
    the success was logged, and that call threw [e]. *)
Definition thrown_state (w : World) (e : Error.t) (s : State) : Prop :=
  no_response s
  /\ (closes (trace s) = 0
      \/ (closes (trace s) = 1
          /\ on_close w 0 = inl e
          /\ (exists url, on_url w = inr url /\ success_url url = true)
          /\ exists earlier stamp, log s = earlier ++ [success_record stamp])).

(** The record the handler starts its log with, when the email can be
    written into it. *)
Definition greeting (b : Body) (w : World) : list LogEntry :=
  match ToString (email b) with
  | inr who => [mkLogEntry ("Initiating Browser for: " ++ who) "info" (clock w 0)]
  | inl _ => []
  end.

(** The proxy is given as a number. *)
Definition alice_numeric_proxy : Body := alice_via (VNumber "8080").

(** Every record of the log was printed, in the same order. *)
Definition console_mirrors_log (s : State) : Prop :=
  consoles (trace s) = map console_line (log s).

(** The account is created, and then the first [browser.close()] fails. *)
Definition created_then_close_fails : World :=
  world_with (inr 1) (inr tt) (inr tt)
             "https://www.spotify.com/account/overview" None []
             (fun n => match n with
                       | 0 => inl (Error.make "EBUSY: resource busy or locked")
                       | _ => inr tt
                       end).

(** The handler has paused for [n] milliseconds so far. *)
Definition paused (n : Z) (s : State) : Prop := slept (trace s) = n.

Definition not_sleep (ev : Event) : bool :=
  match ev with ESleep _ => false | ERespond _ _ | EPush _ | EConsoleLog _ => false | _ => true end.

(** The pause after the click on the Next button, when there is one. *)
Definition next_pause (w : World) : Z :=
  match on_query_next w with
  | inr (Some _) => 1000
  | _ => 0
  end.

(** *** The order of the calls *)

Definition is_goto (ev : Event) : bool :=
  match ev with EGoto _ _ _ => true | _ => false end.

Definition not_goto (ev : Event) : bool := negb (is_goto ev).

(** What has happened before the navigation: the launch, the new page and,
    when the proxy has credentials, the authentication; and nothing on the
    page yet. *)
Definition page_prepared (b : Body) (pre : list Event) : Prop :=
  (exists args, In (ELaunch "new" args) pre)
  /\ In ENewPage pre
  /\ (forall username password,
         credentials (proxy b) = inr (Some (username, password)) ->
         In (EAuthenticate username password) pre)
  /\ forall ev, In ev pre -> on_page ev = false.

Definition navigation_prepared (b : Body) (s : State) : Prop :=
  forall pre post url waitUntil timeout,
    trace s = pre ++ EGoto url waitUntil timeout :: post ->
    page_prepared b pre /\ url = "https://www.spotify.com/signup".

(** *** The steps of the [try] body that can throw *)

(** The completion of a step, without the value it resolves to. *)
Definition completes {A} (r : Error.t + A) : Error.t + unit :=
  match r with
  | inl e => inl e
  | inr _ => inr tt
  end.

(** The first exception in a run of steps, if any. *)
Fixpoint first_thrown (steps : list (Error.t + unit)) : option Error.t :=
  match steps with
  | [] => None
  | inl e :: _ => Some e
  | inr _ :: rest => first_thrown rest
  end.

(** The steps of the [try] body other than the three profile inputs, each
    with its completion, in the order in which the handler takes them.
    First the steps up to the page: the email is written into the greeting,
    the proxy is split, the browser is launched, the page is opened, and the
    page authenticates when the proxy has credentials. *)
Definition steps_to_page (b : Body) (w : World) : list (Error.t + unit) :=
  [completes (ToString (email b)); completes (proxy_args (proxy b));
   completes (on_launch w); on_newPage w]
  ++ match credentials (proxy b) with
     | inr (Some _) => [on_authenticate w]
     | _ => []
     end.

(** Then the steps on the form, but for the profile inputs; the Next button
    is clicked when there is one. *)
Definition steps_on_form (w : World) : list (Error.t + unit) :=
  [on_goto w; on_wait_email w; on_type_email w; completes (on_query_next w)]
  ++ match on_query_next w with
     | inr (Some _) => [on_click_next w]
     | _ => []
     end
  ++ [on_wait_password w; on_type_password w; on_click_submit w].

(** Then the steps of the classification: the URL is read; when it shows
    success the browser is closed, and otherwise the error banner is looked
    up, its text is read when there is one, and the frames are listed. *)
Definition steps_of_verdict (w : World) : list (Error.t + unit) :=
  completes (on_url w)
  :: match on_url w with
     | inr url =>
         if success_url url then [on_close w 0]
         else completes (on_query_error w)
              :: match on_query_error w with
                 | inr (Some _) => [completes (on_textContent w)]
                 | _ => []
                 end
              ++ [completes (on_frames w)]
     | inl _ => []
     end.

(** The exception of the first step, other than the profile inputs, that
    throws; [None] when each of these steps completes. *)
Definition first_failure (b : Body) (w : World) : option Error.t :=
  first_thrown (steps_to_page b w ++ steps_on_form w ++ steps_of_verdict w).

(** The form comes up, but the password input never appears. *)
Definition no_password_input : World :=
  mkWorld noon (inr 1) (inr tt) (inr tt) (inr tt) (inr tt) (inr tt) (inr None)
          (inr tt)
          (inl (Error.make "Waiting for selector failed: 30000ms exceeded"))
          (inr tt) (inr tt) (inr tt) (inr tt) (inr tt)
          (inr "https://www.spotify.com/account/overview") (inr None)
          (inr "Email already in use") (inr []) closing.

(** Navigation times out, the [browser.close()] of the [catch] block fails,
    and the one of the [finally] block goes through. *)
Definition cleanup_fails_once : World :=
  world_with (inr 1) (inl (Error.make "Navigation timeout of 60000 ms exceeded"))
             (inr tt) "about:blank" None []
             (fun n => match n with
                       | 0 => inl (Error.make "EPERM: operation not permitted, unlink")
                       | _ => inr tt
                       end).

(* ================================================================== *)
(** * Proofs *)
(* ================================================================== *)

Unset Implicit Arguments.

(** ** Strings *)

Lemma split_length (sep : ascii) (s : string) :
  length (JsString.split sep s) = S (JsString.count sep s).
Proof.
  induction s as [|c s IH]; [reflexivity|].
  cbn [JsString.split JsString.count].
  destruct (Ascii.eqb c sep); simpl.
  - now rewrite IH.
  - destruct (JsString.split sep s); simpl in *; congruence.
Qed.

Lemma join_split (sep : ascii) (s : string) :
  JsString.join sep (JsString.split sep s) = s.
Proof.
  induction s as [|c s IH]; [reflexivity|].
  cbn [JsString.split].
  destruct (Ascii.eqb c sep) eqn:E.
  - apply Ascii.eqb_eq in E. subst c.
    pose proof (split_length sep s) as L.
    destruct (JsString.split sep s) as [|p ps]; [discriminate|].
    cbn [JsString.join] in *. simpl. now rewrite IH.
  - pose proof (split_length sep s) as L.
    destruct (JsString.split sep s) as [|p ps]; [discriminate|].
    destruct ps as [|q qs]; cbn [JsString.join] in *; simpl; now rewrite IH.
Qed.

(** A proxy string has fewer than two parts exactly when it has no colon. *)
Lemma one_part_no_colon (p : string) :
  length (JsString.split ":" p) < 2 <-> JsString.count ":" p = 0.
Proof. rewrite split_length. lia. Qed.

Arguments JsString.includes : simpl never.
Arguments JsString.split : simpl never.

(** ** Projections of a trace *)

Lemma responses_app (tr1 tr2 : list Event) :
  responses (tr1 ++ tr2) = responses tr1 ++ responses tr2.
Proof. apply flat_map_app. Qed.

Lemma pushed_app (tr1 tr2 : list Event) :
  pushed (tr1 ++ tr2) = pushed tr1 ++ pushed tr2.
Proof. apply flat_map_app. Qed.

Lemma launches_app (tr1 tr2 : list Event) :
  launches (tr1 ++ tr2) = launches tr1 ++ launches tr2.
Proof. apply flat_map_app. Qed.

Lemma authentications_app (tr1 tr2 : list Event) :
  authentications (tr1 ++ tr2) = authentications tr1 ++ authentications tr2.
Proof. apply flat_map_app. Qed.

Lemma closes_app (tr1 tr2 : list Event) :
  closes (tr1 ++ tr2) = closes tr1 + closes tr2.
Proof. unfold closes. now rewrite filter_app, length_app. Qed.

Lemma in_responses (tr : list Event) (st : Z) (body : Json) :
  In (st, body) (responses tr) <-> In (ERespond st body) tr.
Proof.
  unfold responses. rewrite in_flat_map. split.
  - intros [ev [Hin H]]. destruct ev; try contradiction.
    destruct H as [H | []]. now injection H as -> ->.
  - intros H. exists (ERespond st body). split; [exact H | now left].
Qed.

(** A trace that ends in [ev], cut at an event [x]: the cut is at [ev]
    itself, or it lies in the trace before [ev]. *)
Lemma snoc_cut (tr pre post : list Event) (ev x : Event) :
  tr ++ [ev] = pre ++ x :: post ->
  (post = [] /\ pre = tr /\ x = ev)
  \/ exists post', post = post' ++ [ev] /\ tr = pre ++ x :: post'.
Proof.
  destruct (exists_last (l := x :: post)) as [post' [last E]]; [discriminate|].
  intros H. rewrite E, app_assoc in H.
  apply app_inj_tail in H. destruct H as [Htr Hev]. subst last.
  destruct post' as [|y post'].
  - simpl in E. injection E as -> <-. left. now rewrite app_nil_r in Htr.
  - simpl in E. injection E as -> ->. right. exists post'. split; [reflexivity|].
    now rewrite Htr.
Qed.

(** ** Invariants of handler code *)

Section Stable.

Variable I : State -> Prop.

Lemma stable_ret {A} (a : A) : stable I (ret a).
Proof. intros w s H. exact H. Qed.

Lemma stable_throw {A} (e : Error.t) : stable I (@throw A e).
Proof. intros w s H. exact H. Qed.

Lemma stable_lift {A} (r : Error.t + A) : stable I (lift r).
Proof. intros w s H. exact H. Qed.

Lemma stable_bind {A B} (m : M A) (k : A -> M B) :
  stable I m -> (forall a, stable I (k a)) -> stable I (bind m k).
Proof.
  intros Hm Hk w s H. unfold bind.
  specialize (Hm w s H). destruct (m w s) as [[e|a] s']; simpl in *.
  - exact Hm.
  - apply Hk, Hm.
Qed.

Lemma stable_try_catch {A} (body : M A) (handler : Error.t -> M A) :
  stable I body -> (forall e, stable I (handler e)) ->
  stable I (try_catch body handler).
Proof.
  intros Hb Hh w s H. unfold try_catch.
  specialize (Hb w s H). destruct (body w s) as [[e|a] s']; simpl in *.
  - apply Hh, Hb.
  - exact Hb.
Qed.

Lemma stable_try_finally {A} (body : M A) (cleanup : M unit) :
  stable I body -> stable I cleanup -> stable I (try_finally body cleanup).
Proof.
  intros Hb Hc w s H. unfold try_finally.
  specialize (Hb w s H). destruct (body w s) as [r s']; simpl in *.
  specialize (Hc w s' Hb). destruct (cleanup w s') as [[e|u] s'']; exact Hc.
Qed.

Lemma stable_if {A} (c : bool) (m1 m2 : M A) :
  stable I m1 -> stable I m2 -> stable I (if c then m1 else m2).
Proof. now destruct c. Qed.

Lemma stable_option {A B} (o : option A) (f : A -> M B) (m : M B) :
  (forall a, stable I (f a)) -> stable I m ->
  stable I (match o with Some a => f a | None => m end).
Proof. destruct o; auto. Qed.

Variable silent : Event -> bool.
Hypothesis HQ : Quiet I silent.

Lemma stable_call {A} (ev : Event) (f : World -> Error.t + A) :
  silent ev = true -> stable I (call ev f).
Proof. intros Hev w s H. now apply (I_emit HQ). Qed.

Lemma stable_sleep (ms : Z) : silent (ESleep ms) = true -> stable I (sleep ms).
Proof. intros Hev w s H. now apply (I_emit HQ). Qed.

Lemma stable_addLog (msg ty : string) :
  In ty categories -> stable I (addLog msg ty).
Proof. intros Hty w s H. now apply (I_addLog HQ). Qed.

Lemma stable_browser_close :
  (forall b, silent (EClose b) = true) -> stable I browser_close.
Proof.
  intros Hev w s H. unfold browser_close.
  destruct (browser s); simpl; auto. now apply (I_emit HQ).
Qed.

Lemma stable_close_if_launched :
  (forall b, silent (EClose b) = true) -> stable I close_if_launched.
Proof.
  intros Hev w s H. unfold close_if_launched.
  destruct (browser s) eqn:E; [|exact H].
  now apply stable_browser_close.
Qed.

Lemma stable_proxy_split (v : Value) : stable I (proxy_split v).
Proof. destruct v; (apply stable_ret || apply stable_throw). Qed.

Lemma stable_launch_args (v : Value) : stable I (launch_args v).
Proof.
  unfold launch_args. apply stable_if; [|apply stable_ret].
  apply stable_bind; [apply stable_proxy_split|].
  intros parts. apply stable_if; apply stable_ret.
Qed.

Lemma stable_proxy_auth (v : Value) :
  (forall u p, silent (EAuthenticate u p) = true) -> stable I (proxy_auth v).
Proof.
  intros Hev. unfold proxy_auth. apply stable_if; [|apply stable_ret].
  apply stable_bind; [apply stable_proxy_split|].
  intros parts. apply stable_if; [now apply stable_call | apply stable_ret].
Qed.

Lemma stable_fill_profile (b : Body) :
  (forall sel v d, silent (EType sel v d) = true) ->
  (forall sel v, silent (ESelect sel v) = true) ->
  stable I (fill_profile b).
Proof.
  intros HT HS. unfold fill_profile. apply stable_try_catch.
  - repeat (apply stable_bind; [|intros ?]); now apply stable_call.
  - intros e. apply stable_addLog. simpl. tauto.
Qed.

End Stable.

(** Discharges [silent ev = true]: by computation, or from a hypothesis that
    [silent] holds of a class of events. *)
Ltac silence :=
  intros;
  first
    [ reflexivity
    | match goal with
      | Hsil : forall ev, _ -> ?silent ev = true |- ?silent _ = true =>
          apply Hsil; reflexivity
      end ].

(** One step of a proof of [stable I m] for straight-line handler code;
    [HQ] is the proof of [Quiet I silent]. *)
Ltac stable_step HQ :=
  first
    [ apply stable_ret | apply stable_throw | apply stable_lift
    | apply (stable_addLog _ _ HQ); solve [simpl; tauto]
    | apply stable_launch_args
    | apply (stable_proxy_auth _ _ HQ); silence
    | apply (stable_fill_profile _ _ HQ); silence
    | apply (stable_browser_close _ _ HQ); silence
    | apply (stable_close_if_launched _ _ HQ); silence
    | apply (stable_sleep _ _ HQ); silence
    | apply (stable_call _ _ HQ); silence
    | lazymatch goal with
      | |- stable _ (bind get_log _) => fail
      | |- stable _ (bind _ _) => apply stable_bind; [|intros ?]
      end
    | apply stable_option; [intros ?|]
    | apply stable_if ].

Ltac stable_steps HQ := repeat stable_step HQ.

(** ** The code after the page is up *)

Section AfterSubmit.

Variable I : State -> Prop.
Variable silent : Event -> bool.
Hypothesis HQ : Quiet I silent.
Hypothesis Hsilent : forall ev, after_submit ev = true -> silent ev = true.
Hypothesis Hanswer : answering I.

Lemma stable_respond (st : Z) (mk : list LogEntry -> Json) :
  (forall s, sent s st (mk (log s))) ->
  stable I (l <- get_log ;; res_json st (mk l)).
Proof. intros Hmk w s H. simpl. now apply Hanswer. Qed.

Lemma stable_classify : stable I classify.
Proof.
  unfold classify. stable_steps HQ.
  - apply stable_respond. constructor.
  - apply stable_respond. intros s. apply sent_classified.
  - apply stable_respond. intros s. apply sent_classified.
Qed.

Lemma stable_on_error (e : Error.t) : stable I (on_error e).
Proof.
  unfold on_error. stable_steps HQ.
  apply stable_respond. intros s. apply sent_critical.
Qed.

(** The outer [catch] and the [finally] keep the invariant. *)
Lemma stable_settle (w : World) (o : Outcome unit) :
  I (snd o) -> I (snd (settle w o)).
Proof.
  intros H. unfold settle.
  assert (Herr :
    I (snd (match o with
            | (inl e, s) => on_error e w s
            | (inr u, s) => (inr u, s)
            end))).
  { destruct o as [[e|u] s]; [now apply stable_on_error | exact H]. }
  destruct (match o with
            | (inl e, s) => on_error e w s
            | (inr u, s) => (inr u, s)
            end) as [r s'].
  assert (Hclose : I (snd (close_if_launched w s')))
    by (apply (stable_close_if_launched _ _ HQ); [silence | exact Herr]).
  now destruct (close_if_launched w s') as [[e|u] s''].
Qed.

End AfterSubmit.

Lemma stable_fill_form (I : State -> Prop) (silent : Event -> bool) (b : Body) :
  Quiet I silent ->
  (forall ev, on_page ev = true -> silent ev = true) ->
  stable I (fill_form b).
Proof. intros HQ Hpage. unfold fill_form. stable_steps HQ. Qed.

Lemma after_submit_on_page (ev : Event) :
  after_submit ev = true -> on_page ev = true.
Proof. now destruct ev. Qed.

Lemma api_create_settle (b : Body) (w : World) (s : State) :
  api_create b w s = settle w (signup b w s).
Proof.
  unfold api_create, try_finally, try_catch, settle.
  destruct (signup b w s) as [[e|[]] s']; [|reflexivity].
  destruct (on_error e w s') as [r s'']. reflexivity.
Qed.

(** Whatever the world does, the handler keeps every invariant that its
    single steps keep. *)
Theorem stable_api_create (I : State -> Prop) (b : Body) :
  Quiet I external ->
  (forall launched w s, I s -> I (snd (set_browser launched w s))) ->
  answering I ->
  stable I (api_create b).
Proof.
  intros HQ Hbrowser Hanswer w s H.
  assert (Hpage : forall ev, on_page ev = true -> external ev = true)
    by now intros [].
  assert (Hsubmit : forall ev, after_submit ev = true -> external ev = true)
    by now intros [].
  rewrite api_create_settle.
  apply (stable_settle _ _ HQ Hsubmit Hanswer).
  revert w s H. change (stable I (signup b)). unfold signup.
  stable_steps HQ.
  - intros w s H. now apply Hbrowser.
  - apply (stable_fill_form _ _ b HQ Hpage).
  - apply (stable_classify _ _ HQ Hsubmit Hanswer).
Qed.

(* ================================================================== *)
(** ** GET /api/status *)
(* ================================================================== *)

(** C7: whatever the request, the world and the state earlier requests left,
    [GET /api/status] completes and answers with status 200 and the one
    constant object [{ status: 'online', mode: 'puppeteer', version: '5.0.0' }],
    and touches nothing else. *)
Theorem C7_status_is_constant (Req : Type) (req : Req) (w : World) (s : State) :
  api_status req w s = (inr tt, emit (ERespond 200 status_body) s)
  /\ keys status_body = ["status"; "mode"; "version"]
  /\ get "status" status_body = Some (JString "online")
  /\ get "mode" status_body = Some (JString "puppeteer")
  /\ get "version" status_body = Some (JString "5.0.0").
Proof. repeat split. Qed.

(* ================================================================== *)
(** ** The answers of /api/create *)
(* ================================================================== *)

Lemma sent_well_formed (s : State) (st : Z) (body : Json) :
  sent s st body -> well_formed body = true.
Proof. destruct 1; reflexivity. Qed.

Lemma responses_silent (ev : Event) (s : State) :
  is_response ev = false -> responses (trace (emit ev s)) = responses (trace s).
Proof.
  intros H. simpl. rewrite responses_app.
  destruct ev; try discriminate H; apply app_nil_r.
Qed.

Lemma responses_addLog (msg ty : string) (w : World) (s : State) :
  responses (trace (snd (addLog msg ty w s))) = responses (trace s).
Proof. simpl. rewrite responses_app. apply app_nil_r. Qed.

Lemma responses_respond (st : Z) (body : Json) (s : State) :
  responses (trace (emit (ERespond st body) s)) = responses (trace s) ++ [(st, body)].
Proof. simpl. now rewrite responses_app. Qed.

Lemma external_not_response (ev : Event) :
  external ev = true -> is_response ev = false.
Proof. now destruct ev. Qed.

Lemma all_well_formed_quiet : Quiet all_well_formed external.
Proof.
  split; unfold all_well_formed.
  - intros ev s Hev H st body.
    rewrite responses_silent by now apply external_not_response.
    apply H.
  - intros msg ty w s _ H st body. rewrite responses_addLog. apply H.
Qed.

Lemma all_well_formed_answering : answering all_well_formed.
Proof.
  intros st body s H Hsent st' body'.
  rewrite responses_respond, in_app_iff. intros [Hold | [Hnew | []]].
  - now apply (H st').
  - injection Hnew as <- <-. now apply sent_well_formed with (s := s) (st := st).
Qed.

(** C5: every body [/api/create] answers with has a boolean [success] and an
    array [logs], and has a string [error] exactly when [success] is
    [false]; the body with [success] true has no [error] key. *)
Theorem C5_response_shape (b : Body) (w : World) (st : Z) (body : Json) :
  In (ERespond st body) (trace (run b w)) ->
  exists (flag : bool) (items : list Json),
    get "success" body = Some (JBool flag)
    /\ get "logs" body = Some (JArray items)
    /\ (flag = true -> get "error" body = None)
    /\ (flag = false -> exists msg, get "error" body = Some (JString msg)).
Proof.
  intros Hin.
  assert (Hwf : well_formed body = true).
  { assert (Hinv : all_well_formed (run b w)).
    { apply (stable_api_create _ b all_well_formed_quiet).
      - intros launched w' s H. exact H.
      - exact all_well_formed_answering.
      - intros st' body' []. }
    apply (Hinv st). now apply in_responses. }
  unfold well_formed in Hwf.
  destruct (get "success" body) as [[[|] | | |]|]; try discriminate;
    destruct (get "logs" body) as [[| |items|]|]; try discriminate;
    destruct (get "error" body) as [[|msg| |]|]; try discriminate.
  - exists true, items. repeat split; [discriminate].
  - exists false, items. repeat split; [discriminate | now exists msg].
Qed.

(* ================================================================== *)
(** ** The log *)
(* ================================================================== *)

Lemma sent_logs (s : State) (st : Z) (body : Json) :
  sent s st body -> get "logs" body = Some (logs_json (log s)).
Proof. destruct 1; reflexivity. Qed.

Lemma log_in_order_quiet : Quiet log_in_order external.
Proof.
  split.
  - intros ev s Hev (Hlog & Hcut & Hcat). split; [|split].
    + simpl. rewrite pushed_app, <- Hlog.
      destruct ev; try discriminate Hev; simpl; now rewrite ?app_nil_r.
    + intros pre st body post E. simpl in E.
      apply snoc_cut in E. destruct E as [(_ & _ & E) | (post' & _ & E)].
      * subst ev. discriminate Hev.
      * now apply (Hcut pre st body post').
    + exact Hcat.
  - intros msg ty w s Hty (Hlog & Hcut & Hcat). split; [|split].
    + simpl. rewrite pushed_app, <- Hlog. reflexivity.
    + intros pre st body post E. simpl in E.
      match type of E with
      | ?tr ++ [?c; ?p] = _ =>
          replace (tr ++ [c; p]) with ((tr ++ [c]) ++ [p]) in E
            by now rewrite <- app_assoc
      end.
      apply snoc_cut in E. destruct E as [(_ & _ & E) | (post' & _ & E)]; [discriminate|].
      apply snoc_cut in E. destruct E as [(_ & _ & E) | (post'' & _ & E)]; [discriminate|].
      now apply (Hcut pre st body post'').
    + intros entry Hin. simpl in Hin. apply in_app_or in Hin.
      destruct Hin as [Hin | [<- | []]]; [now apply Hcat | exact Hty].
Qed.

Lemma log_in_order_answering : answering log_in_order.
Proof.
  intros st body s (Hlog & Hcut & Hcat) Hsent. split; [|split].
  - simpl. rewrite pushed_app, <- Hlog. simpl. now rewrite app_nil_r.
  - intros pre st' body' post E. simpl in E.
    apply snoc_cut in E. destruct E as [(_ & -> & E) | (post' & _ & E)].
    + injection E as -> ->. rewrite <- Hlog. now apply sent_logs with (st := st).
    + now apply (Hcut pre st' body' post').
  - exact Hcat.
Qed.

Lemma log_in_order_run (b : Body) (w : World) : log_in_order (run b w).
Proof.
  apply (stable_api_create _ b log_in_order_quiet).
  - intros launched w' s H. exact H.
  - exact log_in_order_answering.
  - split; [reflexivity|]. split.
    + intros [|? ?] ? ? ? E; discriminate E.
    + intros entry [].
Qed.

(** [addLog] puts one record with the given message and type at the end of
    the log and leaves the records before it as they were. *)
Lemma addLog_appends (msg ty : string) (w : World) (s : State) :
  addLog msg ty w s
  = (inr tt,
     mkState (log s ++ [mkLogEntry msg ty (clock w (length (log s)))])
             (browser s)
             (trace s ++ [EConsoleLog ("[" ++ JsString.toUpperCase ty ++ "] " ++ msg);
                          EPush (mkLogEntry msg ty (clock w (length (log s))))])).
Proof. reflexivity. Qed.

(** C6 (as amended): every record of the log is an object with the three
    string fields [message], [type] and [timestamp], where [type] holds the
    category of the record (there is no field called [category]); an answer
    carries, in its [logs] array, exactly the records added before it was
    sent, in the order in which they were added, and these are the first
    records of the final log. *)
Theorem C6_log_records_in_order
        (b : Body) (w : World) (pre post : list Event) (st : Z) (body : Json) :
  trace (run b w) = pre ++ ERespond st body :: post ->
  get "logs" body = Some (JArray (map entry_json (pushed pre)))
  /\ (forall entry, In entry (pushed pre) ->
        entry_json entry
        = JObject [("message", JString (message entry));
                   ("type", JString (type entry));
                   ("timestamp", JString (timestamp entry))]
        /\ In (type entry) categories)
  /\ exists later, log (run b w) = pushed pre ++ later.
Proof.
  intros E. destruct (log_in_order_run b w) as (Hlog & Hcut & Hcat).
  assert (Hfull : log (run b w) = pushed pre ++ pushed post)
    by (rewrite Hlog, E, pushed_app; reflexivity).
  split; [now apply (Hcut pre st body post)|].
  split; [|now exists (pushed post)].
  intros entry Hin. split; [reflexivity|].
  apply Hcat. rewrite Hfull. apply in_or_app. now left.
Qed.

(* ================================================================== *)
(** ** Control flow of the [try] body *)
(* ================================================================== *)

(** A step that keeps [I], followed by the rest of the code. *)
Lemma bind_stable (I : State -> Prop) {A B} (m : M A) (k : A -> M B)
      (w : World) (Q : Outcome B -> Prop) :
  stable I m ->
  (forall e s, I s -> Q (inl e, s)) ->
  (forall a s, I s -> Q (k a w s)) ->
  forall s, I s -> Q (bind m k w s).
Proof.
  intros Hm Hthrow Hk s H. unfold bind.
  specialize (Hm w s H). destruct (m w s) as [[e|a] s']; simpl in Hm; auto.
Qed.

(** An external call, followed by the rest of the code. *)
Lemma bind_call {A B} (ev : Event) (f : World -> Error.t + A) (k : A -> M B)
      (w : World) (s : State) (Q : Outcome B -> Prop) :
  (forall e, f w = inl e -> Q (inl e, emit ev s)) ->
  (forall a, f w = inr a -> Q (k a w (emit ev s))) ->
  Q (bind (call ev f) k w s).
Proof.
  intros Hthrow Hk. unfold bind, call. destruct (f w) as [e|a]; auto.
Qed.

Lemma bind_lift {A B} (r : Error.t + A) (k : A -> M B)
      (w : World) (s : State) (Q : Outcome B -> Prop) :
  (forall e, r = inl e -> Q (inl e, s)) ->
  (forall a, r = inr a -> Q (k a w s)) ->
  Q (bind (lift r) k w s).
Proof. intros Hthrow Hk. unfold bind, lift. destruct r; auto. Qed.

Lemma bind_addLog {B} (msg ty : string) (k : unit -> M B)
      (w : World) (s : State) (Q : Outcome B -> Prop) :
  Q (k tt w (snd (addLog msg ty w s))) -> Q (bind (addLog msg ty) k w s).
Proof. intros H. exact H. Qed.

Lemma bind_set_browser {B} (launched : Browser) (k : unit -> M B)
      (w : World) (s : State) (Q : Outcome B -> Prop) :
  Q (k tt w (mkState (log s) (Some launched) (trace s))) ->
  Q (bind (set_browser launched) k w s).
Proof. intros H. exact H. Qed.

(** The launch arguments are computed without any effect. *)
Lemma launch_args_pure (v : Value) (w : World) (s : State) :
  launch_args v w s = (proxy_args v, s).
Proof.
  unfold launch_args, proxy_args. destruct (truthy v); [|reflexivity].
  destruct v; try reflexivity.
  unfold bind, proxy_split, ret.
  now destruct (2 <=? length (JsString.split ":" s0))%nat.
Qed.

Lemma bind_launch_args {B} (v : Value) (k : list string -> M B)
      (w : World) (s : State) (Q : Outcome B -> Prop) :
  (forall e, proxy_args v = inl e -> Q (inl e, s)) ->
  (forall args, proxy_args v = inr args -> Q (k args w s)) ->
  Q (bind (launch_args v) k w s).
Proof.
  intros Hthrow Hk. unfold bind. rewrite launch_args_pure.
  destruct (proxy_args v); auto.
Qed.

(** The proxy authentication is one call of [page.authenticate], or none. *)
Lemma proxy_auth_cases (v : Value) (w : World) (s : State) :
  proxy_auth v w s
  = match credentials v with
    | inl e => (inl e, s)
    | inr None => (inr tt, s)
    | inr (Some (username, password)) =>
        (on_authenticate w, emit (EAuthenticate username password) s)
    end.
Proof.
  unfold proxy_auth, credentials. destruct (truthy v); [|reflexivity].
  destruct v; try reflexivity.
  unfold bind, proxy_split, ret.
  now destruct (length (JsString.split ":" s0) =? 4)%nat.
Qed.

Lemma bind_proxy_auth {B} (v : Value) (k : unit -> M B)
      (w : World) (s : State) (Q : Outcome B -> Prop) :
  (forall e, credentials v = inl e -> Q (inl e, s)) ->
  (credentials v = inr None -> Q (k tt w s)) ->
  (forall username password,
      credentials v = inr (Some (username, password)) ->
      Q (bind (call (EAuthenticate username password) on_authenticate) k w s)) ->
  Q (bind (proxy_auth v) k w s).
Proof.
  intros Hthrow Hnone Hsome.
  unfold bind at 1. rewrite proxy_auth_cases.
  destruct (credentials v) as [e|[[username password]|]] eqn:E; auto.
  apply (Hsome username password eq_refl).
Qed.

(** The proxy field is split the same way at both places. *)
Lemma credentials_args (v : Value) (e : Error.t) :
  credentials v = inl e -> proxy_args v = inl e.
Proof.
  unfold credentials, proxy_args. destruct (truthy v); [|discriminate].
  destruct v; cbv zeta; intros H; try discriminate H;
    injection H as <-; reflexivity.
Qed.

Lemma effects_quiet (ls : list (list string)) (auths : list (string * string))
      (launched : option Browser) :
  Quiet (effects_are ls auths launched) on_page.
Proof.
  split.
  - intros ev s Hev (Hl & Ha & Hb). unfold effects_are. simpl.
    rewrite launches_app, authentications_app, Hl, Ha.
    destruct ev; try discriminate Hev; simpl; rewrite ?app_nil_r; auto.
  - intros msg ty w s _ (Hl & Ha & Hb). unfold effects_are. simpl.
    rewrite launches_app, authentications_app, Hl, Ha. simpl.
    rewrite ?app_nil_r; auto.
Qed.

Lemma effects_answering (ls : list (list string)) (auths : list (string * string))
      (launched : option Browser) :
  answering (effects_are ls auths launched).
Proof.
  intros st body s (Hl & Ha & Hb) _. unfold effects_are. simpl.
  rewrite launches_app, authentications_app, Hl, Ha. simpl.
  rewrite ?app_nil_r; auto.
Qed.

(** The launches and authentications of a request, and the browser variable
    it ends with, as functions of the request and of the world. *)
Lemma run_effects (b : Body) (w : World) :
  effects_are (expected_launches b) (expected_authentications b w)
              (expected_browser b w) (run b w).
Proof.
  unfold run. rewrite api_create_settle.
  assert (Hpage : forall ev, on_page ev = true -> on_page ev = true) by auto.
  apply (stable_settle _ _ (effects_quiet _ _ _) after_submit_on_page
                       (effects_answering _ _ _)).
  unfold signup, expected_authentications, expected_browser, expected_launches.
  apply bind_lift; [intros e -> | intros who ->]; [now repeat split|].
  apply bind_addLog.
  apply bind_launch_args; [intros e -> | intros args ->]; [now repeat split|].
  apply bind_call; [intros e -> | intros launched ->]; [now repeat split|].
  apply bind_set_browser.
  apply bind_call; [intros e -> | intros [] ->]; [now repeat split|].
  assert (Htail :
    forall auths s,
      effects_are [args] auths (Some launched) s ->
      effects_are [args] auths (Some launched)
                  (snd ((fill_form b ;; classify) w s))).
  { intros auths s H.
    apply (stable_bind (effects_are [args] auths (Some launched))); [| |exact H].
    - apply (stable_fill_form _ _ b (effects_quiet _ _ _) Hpage).
    - intros _.
      apply (stable_classify _ _ (effects_quiet _ _ _) after_submit_on_page
                             (effects_answering _ _ _)). }
  apply bind_proxy_auth.
  - intros e He. rewrite He. now repeat split.
  - intros He. rewrite He. apply Htail. now repeat split.
  - intros username password He. rewrite He.
    apply bind_call; [intros e _; now repeat split | intros [] _].
    apply Htail. now repeat split.
Qed.

(* ================================================================== *)
(** ** One browser per request *)
(* ================================================================== *)

(** The [finally] block is the last thing the handler does: if the browser
    variable is set, the trace ends with a call of [browser.close()]. *)
Lemma settle_closes (w : World) (o : Outcome unit) (launched : Browser) :
  browser (snd (settle w o)) = Some launched ->
  exists pre, trace (snd (settle w o)) = pre ++ [EClose launched].
Proof.
  unfold settle.
  destruct (match o with
            | (inl e, s) => on_error e w s
            | (inr u, s) => (inr u, s)
            end) as [r s'].
  unfold close_if_launched, browser_close.
  destruct (browser s') as [br|] eqn:E.
  - destruct (on_close w (closes (trace s'))) as [e|u]; simpl;
      rewrite E; intros H; injection H as ->; now exists (trace s').
  - simpl. congruence.
Qed.

(** C3: a request calls [puppeteer.launch] at most once, and exactly once
    when neither the coercion of the email nor the parsing of the proxy
    throws before it; the browser variable is set exactly when that call was
    made and resolved; and whenever it is set, whatever path the handler
    took, the last thing the handler does is call [browser.close()] on the
    browser it launched. *)
Theorem C3_one_browser_always_closed (b : Body) (w : World) :
  length (launches (trace (run b w))) <= 1
  /\ (resolves (ToString (email b)) = true ->
      resolves (proxy_args (proxy b)) = true ->
      length (launches (trace (run b w))) = 1)
  /\ (forall launched,
         browser (run b w) = Some launched
         <-> launches (trace (run b w)) <> [] /\ on_launch w = inr launched)
  /\ (forall launched,
         launches (trace (run b w)) <> [] -> on_launch w = inr launched ->
         exists pre, trace (run b w) = pre ++ [EClose launched]).
Proof.
  destruct (run_effects b w) as (Hl & _ & Hb).
  assert (Hset :
    forall launched,
      browser (run b w) = Some launched
      <-> launches (trace (run b w)) <> [] /\ on_launch w = inr launched).
  { intros launched. rewrite Hl, Hb. unfold expected_browser.
    destruct (expected_launches b) as [|args rest].
    - split; [discriminate | now intros [[] _]].
    - destruct (on_launch w) as [e|launched'].
      + split; [discriminate | intros [_ H]; discriminate H].
      + split.
        * intros H. injection H as ->. now split.
        * intros [_ H]. now injection H as ->. }
  split; [|split; [|split]].
  - rewrite Hl. unfold expected_launches.
    destruct (ToString (email b)); [auto|].
    destruct (proxy_args (proxy b)); simpl; auto.
  - rewrite Hl. unfold expected_launches.
    destruct (ToString (email b)); [discriminate|].
    destruct (proxy_args (proxy b)); [discriminate | reflexivity].
  - exact Hset.
  - intros launched Hcalled Hresolved.
    unfold run in *. rewrite api_create_settle in *.
    apply settle_closes. apply Hset. now split.
Qed.

(* ================================================================== *)
(** ** The proxy string *)
(* ================================================================== *)

Lemma split_empty (sep : ascii) : JsString.split sep EmptyString = [EmptyString].
Proof. reflexivity. Qed.

(** A string that splits into two parts or more is not empty, so it is a
    truthy proxy. *)
Lemma split_truthy (p : string) :
  2 <= length (JsString.split ":" p) -> truthy (VString p) = true.
Proof. destruct p; [simpl; lia | reflexivity]. Qed.

(** C4: with a proxy string [host:port] the browser is launched with the
    argument [--proxy-server=host:port] and the page does not authenticate;
    with [host:port:user:password] it is launched with the same argument and
    the page authenticates with [user] and [password]; with no proxy the
    launch has no proxy argument and the page does not authenticate.  (The
    launch takes place unless the coercion of the email throws before it,
    the authentication unless the launch or the opening of the page
    throws.) *)
Theorem C4_proxy_forms (b : Body) (w : World) :
  (forall p host port,
      proxy b = VString p -> JsString.split ":" p = [host; port] ->
      launches (trace (run b w))
      = (if resolves (ToString (email b))
         then [base_args ++ [("--proxy-server=" ++ host ++ ":" ++ port)%string]]
         else [])
      /\ authentications (trace (run b w)) = [])
  /\ (forall p host port user password,
         proxy b = VString p ->
         JsString.split ":" p = [host; port; user; password] ->
         launches (trace (run b w))
         = (if resolves (ToString (email b))
            then [base_args ++ [("--proxy-server=" ++ host ++ ":" ++ port)%string]]
            else [])
         /\ authentications (trace (run b w))
            = (if resolves (ToString (email b)) && resolves (on_launch w)
                  && resolves (on_newPage w)
               then [(user, password)]
               else []))
  /\ (truthy (proxy b) = false ->
      launches (trace (run b w))
      = (if resolves (ToString (email b)) then [base_args] else [])
      /\ authentications (trace (run b w)) = []).
Proof.
  destruct (run_effects b w) as (Hl & Ha & _). rewrite Hl, Ha.
  unfold expected_authentications, expected_browser, expected_launches,
    proxy_args, credentials.
  split; [|split].
  - intros p host port Hp Hsplit.
    rewrite Hp, split_truthy by (rewrite Hsplit; simpl; lia). rewrite Hsplit.
    simpl. destruct (ToString (email b)); [now split|]. split; [reflexivity|].
    destruct (on_launch w); [reflexivity|]. now destruct (on_newPage w).
  - intros p host port user password Hp Hsplit.
    rewrite Hp, split_truthy by (rewrite Hsplit; simpl; lia). rewrite Hsplit.
    simpl. destruct (ToString (email b)); [now split|]. split; [reflexivity|].
    destruct (on_launch w); [reflexivity|]. now destruct (on_newPage w).
  - intros Hfalsy. rewrite Hfalsy.
    destruct (ToString (email b)); [now split|]. split; [reflexivity|].
    destruct (on_launch w); [reflexivity|]. now destruct (on_newPage w).
Qed.

(** C9: a proxy string of three parts leads to a launch with
    [--proxy-server] built from the first two, and to no authentication;
    [page.authenticate] is called only for a proxy string of exactly four
    parts (with the third and the fourth); a proxy string of fewer than two
    parts adds no proxy argument. *)
Theorem C9_proxy_part_counts (b : Body) (w : World) :
  (forall p host port user,
      proxy b = VString p -> JsString.split ":" p = [host; port; user] ->
      launches (trace (run b w))
      = (if resolves (ToString (email b))
         then [base_args ++ [("--proxy-server=" ++ host ++ ":" ++ port)%string]]
         else [])
      /\ authentications (trace (run b w)) = [])
  /\ (forall username password,
         In (EAuthenticate username password) (trace (run b w)) ->
         exists p,
           proxy b = VString p
           /\ length (JsString.split ":" p) = 4
           /\ username = nth 2 (JsString.split ":" p) EmptyString
           /\ password = nth 3 (JsString.split ":" p) EmptyString)
  /\ (forall p,
         proxy b = VString p -> length (JsString.split ":" p) < 2 ->
         launches (trace (run b w))
         = (if resolves (ToString (email b)) then [base_args] else [])
         /\ authentications (trace (run b w)) = []).
Proof.
  destruct (run_effects b w) as (Hl & Ha & _).
  split; [|split].
  - intros p host port user Hp Hsplit. rewrite Hl, Ha.
    unfold expected_authentications, expected_browser, expected_launches,
      proxy_args, credentials.
    rewrite Hp, split_truthy by (rewrite Hsplit; simpl; lia). rewrite Hsplit.
    simpl. destruct (ToString (email b)); [now split|]. split; [reflexivity|].
    destruct (on_launch w); [reflexivity|]. now destruct (on_newPage w).
  - intros username password Hin.
    assert (Hauth : In (username, password) (authentications (trace (run b w)))).
    { unfold authentications. apply in_flat_map.
      exists (EAuthenticate username password). split; [exact Hin | now left]. }
    rewrite Ha in Hauth. unfold expected_authentications in Hauth.
    destruct (expected_browser b w); [|contradiction].
    destruct (on_newPage w); [contradiction|].
    unfold credentials in Hauth.
    destruct (truthy (proxy b)); [|contradiction].
    destruct (proxy b) as [| | | |p|]; try contradiction.
    cbv zeta in Hauth.
    destruct (length (JsString.split ":" p) =? 4)%nat eqn:E; [|contradiction].
    apply Nat.eqb_eq in E. destruct Hauth as [Hauth | []].
    injection Hauth as <- <-. exists p. repeat split; [exact E | |].
    + destruct (JsString.split ":" p) as [|? [|? [|? ?]]]; try discriminate E.
      reflexivity.
    + destruct (JsString.split ":" p) as [|? [|? [|? [|? ?]]]]; try discriminate E.
      reflexivity.
  - intros p Hp Hlen. rewrite Hl, Ha.
    unfold expected_authentications, expected_browser, expected_launches,
      proxy_args, credentials. rewrite Hp.
    assert (H2 : (2 <=? length (JsString.split ":" p))%nat = false)
      by (apply Nat.leb_gt; exact Hlen).
    assert (H4 : (length (JsString.split ":" p) =? 4)%nat = false)
      by (apply Nat.eqb_neq; lia).
    cbv zeta. rewrite H2, H4.
    destruct (truthy (VString p));
      (destruct (ToString (email b)); [now split|]; split; [reflexivity|];
       destruct (on_launch w); [reflexivity|]; now destruct (on_newPage w)).
Qed.

(* ================================================================== *)
(** ** The classification of the outcome *)
(* ================================================================== *)

Lemma success_url_spec (url : string) :
  success_url url = true <-> shows_success url.
Proof.
  unfold success_url, shows_success, success_markers. split.
  - intros H. apply orb_true_iff in H. destruct H as [H | H].
    + apply orb_true_iff in H. destruct H as [H | H].
      * exists "download". simpl. auto.
      * exists "overview". simpl. auto.
    + exists "account". simpl. auto.
  - intros [marker [Hin H]]. simpl in Hin.
    destruct Hin as [<- | [<- | [<- | []]]]; rewrite H;
      rewrite ?orb_true_r; reflexivity.
Qed.

Lemma find_captcha_frame (frames : list string) :
  (exists frame, find (JsString.includes "arkoselabs") frames = Some frame)
  <-> captcha_frame frames.
Proof.
  unfold captcha_frame. split.
  - intros [frame H]. apply find_some in H. now exists frame.
  - intros [frame [Hin H]].
    destruct (find (JsString.includes "arkoselabs") frames) as [f|] eqn:E.
    + now exists f.
    + apply find_none with (x := frame) in E; [congruence | exact Hin].
Qed.

Lemma no_response_quiet : Quiet no_response external.
Proof.
  split; unfold no_response.
  - intros ev s Hev H.
    now rewrite responses_silent by now apply external_not_response.
  - intros msg ty w s _ H. now rewrite responses_addLog.
Qed.

Ltac quiet_state H :=
  unfold no_response in *; simpl;
  rewrite ?responses_app; simpl; rewrite ?app_nil_r, ?H; simpl.

(** The classification either throws before it has answered, or answers once,
    with status 200 and a verdict on the page. *)
Lemma classify_outcome (w : World) (s : State) :
  no_response s ->
  match classify w s with
  | (inl e, s') => no_response s'
  | (inr _, s') =>
      exists url body,
        on_url w = inr url
        /\ responses (trace s') = [(200%Z, body)]
        /\ classified w url body
  end.
Proof.
  intros H. unfold classify.
  apply bind_call; [intros e _; now quiet_state H | intros url Hurl].
  destruct (success_url url) eqn:Hsuccess.
  - (* a success marker *)
    unfold bind, addLog, browser_close, get_log, res_json, effect. simpl.
    destruct (browser s) as [br|]; simpl; [|now quiet_state H].
    destruct (on_close w _) as [e|[]]; simpl; [now quiet_state H|].
    exists url. eexists. split; [exact Hurl|]. split; [now quiet_state H|].
    apply success_url_spec in Hsuccess. split; [now split|]. now intros [].
  - (* no success marker: look for an error banner and a CAPTCHA frame *)
    assert (Hno : ~ shows_success url)
      by (rewrite <- success_url_spec; congruence).
    apply bind_call; [intros e _; now quiet_state H | intros errorEl HerrorEl].
    assert (Hbanner :
      forall (text : string) (s0 : State),
        no_response s0 ->
        match errorEl with
        | Some el => on_textContent w = inr text
        | None => text = "Unknown Error"
        end ->
        match (frames <- call EFrames on_frames ;;
               match find (JsString.includes "arkoselabs") frames with
               | Some arkoseFrame =>
                   addLog "FAILED: Captcha Challenge Triggered. Automation detected." "error" ;;
                   l <- get_log ;;
                   res_json 200 (failure_body l captcha_message)
               | None =>
                   addLog ("Failed: " ++ text) "error" ;;
                   l <- get_log ;;
                   res_json 200 (failure_body l text)
               end) w s0 with
        | (inl e, s') => no_response s'
        | (inr _, s') =>
            exists url body,
              on_url w = inr url
              /\ responses (trace s') = [(200%Z, body)]
              /\ classified w url body
        end).
    { intros text s0 H0 Htext.
      apply bind_call; [intros e _; now quiet_state H0 | intros frames Hframes].
      destruct (find (JsString.includes "arkoselabs") frames) as [frame|] eqn:Hfind.
      - unfold bind, addLog, get_log, res_json, effect. simpl.
        exists url. eexists. split; [exact Hurl|]. split; [now quiet_state H0|].
        split; [split; [discriminate | contradiction]|].
        intros _. split; [reflexivity|].
        exists frames, errorEl. repeat split; try assumption.
        intros Hnone. exfalso. apply Hnone, find_captcha_frame. now exists frame.
      - unfold bind, addLog, get_log, res_json, effect. simpl.
        exists url. eexists. split; [exact Hurl|]. split; [now quiet_state H0|].
        split; [split; [discriminate | contradiction]|].
        intros _. split; [reflexivity|].
        exists frames, errorEl. repeat split; try assumption.
        + intros Hsome. apply find_captcha_frame in Hsome.
          destruct Hsome as [frame Hsome]. congruence.
        + intros _. destruct errorEl; [now exists text | now subst text]. }
    destruct errorEl as [el|].
    + apply bind_call; [intros e _; now quiet_state H | intros text Htext].
      apply Hbanner; [now quiet_state H | exact Htext].
    + unfold bind at 1. simpl. apply Hbanner; [now quiet_state H | reflexivity].
Qed.

(** The [try] body is a run of steps that keep [I], any of which may throw,
    followed by the classification. *)
Lemma signup_flow (I : State -> Prop) (b : Body) (w : World)
      (Q : Outcome unit -> Prop) :
  Quiet I external ->
  (forall launched w s, I s -> I (snd (set_browser launched w s))) ->
  (forall e s, I s -> Q (inl e, s)) ->
  (forall s, I s -> Q (classify w s)) ->
  forall s, I s -> Q (signup b w s).
Proof.
  intros HQ Hbrowser Hthrow Hclassify. unfold signup.
  assert (Hpage : forall ev, on_page ev = true -> external ev = true)
    by now intros [].
  repeat (lazymatch goal with
          | |- forall s, _ -> _ (classify _ s) => fail
          | |- _ => idtac
          end;
          apply bind_stable with (I := I);
          [ first [ solve [stable_steps HQ]
                  | apply (stable_fill_form _ _ b HQ Hpage)
                  | intros ? ? ?; now apply Hbrowser ]
          | exact Hthrow | intros ? ]).
  exact Hclassify.
Qed.

(** The [try] body either throws before anything was answered, or answers
    once, with status 200 and a verdict on the page. *)
Lemma signup_outcome (b : Body) (w : World) :
  match signup b w initial with
  | (inl e, s') => no_response s'
  | (inr _, s') =>
      exists url body,
        on_url w = inr url
        /\ responses (trace s') = [(200%Z, body)]
        /\ classified w url body
  end.
Proof.
  apply signup_flow with (I := no_response).
  - exact no_response_quiet.
  - intros launched w' s H. exact H.
  - intros e s H. exact H.
  - apply classify_outcome.
  - reflexivity.
Qed.

(** The [finally] block answers nothing. *)
Lemma close_responses (w : World) (s : State) :
  responses (trace (snd (close_if_launched w s))) = responses (trace s).
Proof.
  unfold close_if_launched, browser_close.
  destruct (browser s); [|reflexivity].
  simpl. rewrite responses_app. apply app_nil_r.
Qed.

Lemma settle_responses (w : World) (o : Outcome unit) :
  responses (trace (snd (settle w o)))
  = responses (trace (snd (match o with
                           | (inl e, s) => on_error e w s
                           | (inr u, s) => (inr u, s)
                           end))).
Proof.
  unfold settle.
  destruct (match o with
            | (inl e, s) => on_error e w s
            | (inr u, s) => (inr u, s)
            end) as [r s'].
  cbn [snd]. rewrite <- (close_responses w s').
  now destruct (close_if_launched w s') as [[e|u] s''].
Qed.

(** The outer [catch], step by step. *)
Lemma on_error_cases (error : Error.t) (w : World) (s : State) :
  let s1 := snd (addLog ("Critical Error: " ++ Error.message error) "error" w s) in
  on_error error w s
  = match browser s with
    | None =>
        (inr tt, emit (ERespond 500 (failure_body (log s1) (Error.message error))) s1)
    | Some launched =>
        match on_close w (closes (trace s)) with
        | inl e => (inl e, emit (EClose launched) s1)
        | inr _ =>
            (inr tt,
             emit (ERespond 500 (failure_body (log s1) (Error.message error)))
                  (emit (EClose launched) s1))
        end
    end.
Proof.
  unfold on_error, bind, close_if_launched, browser_close, get_log, res_json, effect.
  simpl. destruct (browser s) as [launched|]; [|reflexivity].
  rewrite closes_app. simpl. rewrite Nat.add_0_r.
  now destruct (on_close w (closes (trace s))).
Qed.

(** The answers of a request whose [try] body threw: one answer with status
    500 and the message of the exception, unless the [browser.close()] of the
    [catch] block throws in its turn, in which case nothing is answered. *)
Lemma escape_responses (b : Body) (w : World) (e : Error.t) (s : State) :
  signup b w initial = (inl e, s) ->
  responses (trace (run b w))
  = match browser s, on_close w (closes (trace s)) with
    | Some _, inl _ => []
    | _, _ =>
        [(500%Z,
          failure_body
            (log s ++ [mkLogEntry ("Critical Error: " ++ Error.message e) "error"
                                  (clock w (length (log s)))])
            (Error.message e))]
    end.
Proof.
  intros Hs. pose proof (signup_outcome b w) as Hquiet. rewrite Hs in Hquiet.
  unfold run. rewrite api_create_settle, settle_responses, Hs, on_error_cases.
  destruct (browser s) as [launched|].
  - destruct (on_close w (closes (trace s))); quiet_state Hquiet; reflexivity.
  - destruct (on_close w (closes (trace s))); quiet_state Hquiet; reflexivity.
Qed.

(** The answers of a request whose [try] body returned. *)
Lemma return_responses (b : Body) (w : World) (s : State) :
  signup b w initial = (inr tt, s) ->
  exists url body,
    on_url w = inr url
    /\ responses (trace (run b w)) = [(200%Z, body)]
    /\ classified w url body.
Proof.
  intros Hs. pose proof (signup_outcome b w) as H. rewrite Hs in H.
  unfold run. now rewrite api_create_settle, settle_responses, Hs.
Qed.

Lemma escapes_or_returns (b : Body) (w : World) :
  (exists e, escapes b w e) \/ exists s, signup b w initial = (inr tt, s).
Proof.
  unfold escapes. destruct (signup b w initial) as [[e|[]] s] eqn:E.
  - left. now exists e, s.
  - right. now exists s.
Qed.

(* ================================================================== *)
(** ** The profile inputs *)
(* ================================================================== *)

Lemma bind_outcome {A B} (m : M A) (k : A -> M B) (w : World) (s : State) :
  bind m k w s
  = match m w s with
    | (inr a, s') => k a w s'
    | (inl e, s') => (inl e, s')
    end.
Proof. reflexivity. Qed.

Lemma bind_assoc {A B C} (m : M A) (f : A -> M B) (k : B -> M C)
      (w : World) (s : State) :
  bind (bind m f) k w s = bind m (fun a => bind (f a) k) w s.
Proof. unfold bind. now destruct (m w s) as [[e|a] s']. Qed.

Lemma bind_effect {B} (ev : Event) (k : unit -> M B)
      (w : World) (s : State) (Q : Outcome B -> Prop) :
  Q (k tt w (emit ev s)) -> Q (bind (effect ev) k w s).
Proof. intros H. exact H. Qed.

(** The inner [try]/[catch] never throws. *)
Lemma fill_profile_runs (b : Body) (w : World) (s : State) :
  fill_profile b w s = (inr tt, after_profile b w s).
Proof.
  unfold fill_profile, after_profile, try_catch, bind, call, year_event.
  destruct (on_type_year w) as [e|[]]; [reflexivity|].
  destruct (on_select_month w) as [e|[]]; [reflexivity|].
  destruct (on_type_day w) as [e|[]]; reflexivity.
Qed.

Lemma bind_fill_profile {B} (b : Body) (k : unit -> M B)
      (w : World) (s : State) (Q : Outcome B -> Prop) :
  Q (k tt w (after_profile b w s)) -> Q (bind (fill_profile b) k w s).
Proof. intros H. rewrite bind_outcome, fill_profile_runs. exact H. Qed.

(** What the inner [try]/[catch] does to the state: the attempted inputs go
    to the trace; the log gets the warning when an input threw, and nothing
    otherwise; the browser variable and the answers are left alone. *)
Lemma after_profile_effect (b : Body) (w : World) (s : State) :
  browser (after_profile b w s) = browser s
  /\ responses (trace (after_profile b w s)) = responses (trace s)
  /\ closes (trace (after_profile b w s)) = closes (trace s)
  /\ log (after_profile b w s)
     = match profile_error w with
       | Some _ => log s ++ [warning (clock w (length (log s)))]
       | None => log s
       end
  /\ exists rest,
       trace (after_profile b w s) = trace s ++ year_event b :: rest
       /\ (forall ev, In ev rest -> is_year_event ev = false)
       /\ (profile_error w <> None ->
           In (EPush (warning (clock w (length (log s))))) rest).
Proof.
  unfold after_profile, profile_error, warning.
  destruct (on_type_year w) as [e|[]];
    [|destruct (on_select_month w) as [e|[]];
      [|destruct (on_type_day w) as [e|[]]]];
    simpl; rewrite ?responses_app, ?closes_app; simpl;
    rewrite ?app_nil_r, ?Nat.add_0_r;
    (repeat split; [ ]);
    eexists; (split; [rewrite <- ?app_assoc; simpl; reflexivity|]);
    (split;
     [ intros ev Hin; simpl in Hin;
       repeat (destruct Hin as [<- | Hin]; [reflexivity|]); contradiction
     | intros Herr; simpl; try tauto; now contradiction Herr ]).
Qed.

(** A trace with a single profile attempt [x] is cut at [x] and nowhere
    else. *)
Lemma cut_first (tr rest pre post : list Event) (x y : Event) :
  (forall ev, In ev tr -> is_year_event ev = false) ->
  (forall ev, In ev rest -> is_year_event ev = false) ->
  is_year_event y = true ->
  tr ++ x :: rest = pre ++ y :: post ->
  pre = tr /\ y = x /\ post = rest.
Proof.
  intros Htr Hrest Hy. revert pre.
  induction tr as [|a tr IH]; intros pre E.
  - destruct pre as [|c pre]; simpl in E.
    + injection E as -> ->. auto.
    + injection E as -> ->.
      rewrite Hrest in Hy by (apply in_or_app; right; now left). discriminate.
  - destruct pre as [|c pre]; simpl in E.
    + injection E as -> _. rewrite Htr in Hy by now left. discriminate.
    + injection E as -> E. apply IH in E.
      * destruct E as (-> & -> & ->). auto.
      * intros ev Hin. apply Htr. now right.
Qed.

Lemma no_profile_quiet : Quiet no_profile_yet not_year_event.
Proof.
  split; unfold no_profile_yet.
  - intros ev s Hev H ev' Hin. simpl in Hin. apply in_app_or in Hin.
    destruct Hin as [Hin | [<- | []]]; [now apply H|].
    unfold not_year_event in Hev. now destruct (is_year_event ev).
  - intros msg ty w s _ H ev' Hin. simpl in Hin. apply in_app_or in Hin.
    destruct Hin as [Hin | [<- | [<- | []]]]; [now apply H | reflexivity..].
Qed.

Lemma no_profile_answering : answering no_profile_yet.
Proof.
  intros st body s H _ ev Hin. simpl in Hin. apply in_app_or in Hin.
  destruct Hin as [Hin | [<- | []]]; [now apply H | reflexivity].
Qed.

Lemma year_event_is (b : Body) : is_year_event (year_event b) = true.
Proof. reflexivity. Qed.

(** Appending an event that is not a profile attempt. *)
Lemma submit_follows_emit (b : Body) (w : World) (ev : Event) (s : State) :
  is_year_event ev = false ->
  submit_follows b w s -> submit_follows b w (emit ev s).
Proof.
  intros Hev H pre post E. simpl in E.
  apply snoc_cut in E. destruct E as [(_ & _ & E) | (post' & -> & E)].
  - subst ev. discriminate Hev.
  - destruct (H pre post' E) as [Hclick Hwarn]. split.
    + apply in_or_app. now left.
    + intros Herr. destruct (Hwarn Herr) as [stamp Hin].
      exists stamp. apply in_or_app. now left.
Qed.

Lemma submit_follows_quiet (b : Body) (w : World) :
  Quiet (submit_follows b w) not_year_event.
Proof.
  split.
  - intros ev s Hev. apply submit_follows_emit.
    unfold not_year_event in Hev. now destruct (is_year_event ev).
  - intros msg ty w' s _ H pre post E. simpl in E. unfold year_event in E.
    match type of E with
    | ?tr ++ [?c; ?p] = _ =>
        replace (tr ++ [c; p]) with ((tr ++ [c]) ++ [p]) in E
          by now rewrite <- app_assoc
    end.
    apply snoc_cut in E.
    destruct E as [(_ & _ & E) | (post' & -> & E)]; [discriminate E|].
    apply snoc_cut in E.
    destruct E as [(_ & _ & E) | (post'' & -> & E)]; [discriminate E|].
    destruct (H pre post'' E) as [Hclick Hwarn]. split.
    + apply in_or_app. left. apply in_or_app. now left.
    + intros Herr. destruct (Hwarn Herr) as [stamp Hin].
      exists stamp. apply in_or_app. left. apply in_or_app. now left.
Qed.

Lemma submit_follows_answering (b : Body) (w : World) :
  answering (submit_follows b w).
Proof. intros st body s H _. now apply submit_follows_emit. Qed.

Lemma no_profile_submit (b : Body) (w : World) (s : State) :
  no_profile_yet s -> submit_follows b w s.
Proof.
  intros H pre post E.
  assert (Hin : In (year_event b) (trace s))
    by (rewrite E; apply in_or_app; right; now left).
  apply H in Hin. discriminate Hin.
Qed.

(** After the inner [try]/[catch], the log record and the click. *)
Lemma submit_established (b : Body) (w : World) (s : State) :
  no_profile_yet s ->
  submit_follows b w
    (emit (EClick submit_selector)
          (snd (addLog "Clicking Submit..." "network" w (after_profile b w s)))).
Proof.
  intros H pre post E.
  destruct (after_profile_effect b w s) as (_ & _ & _ & _ & rest & Htr & Hrest & Hwarn).
  simpl in E. rewrite Htr in E. rewrite <- !app_assoc in E. simpl in E.
  apply cut_first in E; [| exact H | | apply year_event_is].
  - destruct E as (_ & _ & ->). split.
    + apply in_or_app. right. simpl. auto.
    + intros Herr. eexists. apply in_or_app. left. now apply Hwarn.
  - intros ev Hin. apply in_app_or in Hin.
    destruct Hin as [Hin | Hin]; [now apply Hrest|].
    simpl in Hin. repeat (destruct Hin as [<- | Hin]; [reflexivity|]).
    contradiction.
Qed.

(** The form is filled by steps that do not touch the profile inputs, then
    the profile inputs are attempted and Submit is clicked. *)
Lemma fill_form_submit (b : Body) (w : World) (Q : Outcome unit -> Prop) :
  (forall e s, no_profile_yet s -> Q (inl e, s)) ->
  (forall r s, submit_follows b w s -> Q (r, s)) ->
  forall s, no_profile_yet s -> Q (fill_form b w s).
Proof.
  intros Hbefore Hafter. unfold fill_form.
  repeat (lazymatch goal with
          | |- forall s, _ -> _ (bind (fill_profile _) _ _ s) => fail
          | |- _ => idtac
          end;
          apply bind_stable with (I := no_profile_yet);
          [ solve [stable_steps no_profile_quiet] | exact Hbefore | intros ? ]).
  intros s H.
  apply bind_fill_profile, bind_addLog.
  pose proof (submit_established b w _ H) as Hsub.
  apply bind_call; [intros e _; now apply Hafter | intros [] _].
  apply bind_addLog. unfold sleep, effect. apply Hafter.
  apply (I_emit (submit_follows_quiet b w)); [reflexivity|].
  apply (I_addLog (submit_follows_quiet b w)); [simpl; tauto | exact Hsub].
Qed.

(** In every run, an attempt at the profile inputs is followed by the click
    on Submit. *)
Lemma run_submit_follows (b : Body) (w : World) : submit_follows b w (run b w).
Proof.
  assert (Hsil : forall ev, after_submit ev = true -> not_year_event ev = true)
    by now intros [].
  unfold run. rewrite api_create_settle.
  apply (stable_settle _ _ (submit_follows_quiet b w) Hsil
                       (submit_follows_answering b w)).
  assert (Hpre : no_profile_yet initial) by (intros ev []).
  revert Hpre. generalize initial.
  set (Q := fun o : Outcome unit => submit_follows b w (snd o)).
  change (forall s, no_profile_yet s -> Q (signup b w s)). unfold signup.
  repeat (lazymatch goal with
          | |- forall s, _ -> _ (bind (fill_form _) _ _ s) => fail
          | |- _ => idtac
          end;
          apply bind_stable with (I := no_profile_yet) (Q := Q);
          [ first [ solve [stable_steps no_profile_quiet]
                  | intros ? ? ?; assumption ]
          | intros e s H; now apply no_profile_submit | intros ? ]).
  subst Q. cbv beta.
  intros s H. rewrite bind_outcome.
  apply fill_form_submit
    with (Q := fun o : Outcome unit =>
                 submit_follows b w
                   (snd (match o with
                         | (inr _, s') => classify w s'
                         | (inl e, s') => (inl e, s')
                         end))); [| |exact H].
  - intros e s0 H0. now apply no_profile_submit.
  - intros [e|[]] s0 H0; [exact H0|].
    now apply (stable_classify _ _ (submit_follows_quiet b w) Hsil
                               (submit_follows_answering b w)).
Qed.

(* ================================================================== *)
(** ** Which exceptions reach the outer [catch] *)
(* ================================================================== *)

Lemma browser_close_cases (w : World) (s : State) (launched : Browser) :
  browser s = Some launched ->
  browser_close w s = (on_close w (closes (trace s)), emit (EClose launched) s).
Proof. intros H. unfold browser_close. now rewrite H. Qed.

(** Names the step that threw [e]. *)
Ltac blame He :=
  unfold thrown_outside_profile;
  first
    [ right; eexists; exact He
    | left; rewrite ?He; simpl; repeat (first [left; reflexivity | right]) ].

(** A leaf of the walk: the code has thrown [e] at a step whose outcome is
    [He], or it has returned. *)
Ltac leaf He :=
  let e' := fresh "e" in
  let s' := fresh "s" in
  let E := fresh "E" in
  intros e' s' E; injection E as <- _; blame He.

(** One step of a walk through straight-line handler code. *)
Ltac walk_step :=
  cbv beta;
  rewrite ?bind_assoc;
  first
    [ apply bind_addLog
    | apply bind_set_browser
    | apply bind_effect
    | apply bind_fill_profile
    | apply bind_call;
      [ let e := fresh "e" in
        let He := fresh "He" in
        intros e He; leaf He
      | intros ? _ ] ].

(** An exception that escapes the [try] body was thrown by a step other than
    the three profile inputs. *)
Lemma escape_blame (b : Body) (w : World) (e : Error.t) (s : State) :
  signup b w initial = (inl e, s) -> thrown_outside_profile b w e.
Proof.
  revert e s.
  set (Q := fun o : Outcome unit =>
              forall e s, o = (inl e, s) -> thrown_outside_profile b w e).
  change (Q (signup b w initial)). unfold signup.
  apply bind_lift; [intros e He; subst Q; leaf He | intros who _].
  apply bind_addLog.
  apply bind_launch_args; [intros e He; subst Q; leaf He | intros args Hargs].
  apply bind_call; [intros e He; subst Q; leaf He | intros launched _].
  apply bind_set_browser.
  apply bind_call; [intros e He; subst Q; leaf He | intros [] _].
  assert (Hpage :
    forall s0, browser s0 = Some launched ->
               Q ((fill_form b ;; classify) w s0)).
  { intros s0 Hb. unfold fill_form, sleep. subst Q.
    do 7 walk_step.
    rewrite bind_assoc.
    apply bind_call; [intros e He; leaf He | intros nextBtn _].
    assert (Hrest :
      forall s1, browser s1 = Some launched ->
        forall e s,
          ((call (EWaitForSelector password_selector None) on_wait_password ;;
            call (EType password_selector (password b) (Some 100%Z)) on_type_password ;;
            addLog "Entered Password" "info" ;;
            addLog "Filling Profile details..." "info" ;;
            fill_profile b ;;
            addLog "Clicking Submit..." "network" ;;
            call (EClick submit_selector) on_click_submit ;;
            addLog "Verifying submission..." "info" ;;
            effect (ESleep 3000)) ;; classify) w s1 = (inl e, s) ->
          thrown_outside_profile b w e).
    { intros s1 Hb1.
      do 9 walk_step.
      cbv beta. unfold classify.
      apply bind_call; [intros e He; leaf He | intros url _].
      destruct (success_url url).
      - apply bind_addLog. rewrite bind_outcome.
        rewrite browser_close_cases with (launched := launched).
        + destruct (on_close w _) as [e|[]] eqn:He; [leaf He|].
          intros ? ? E; discriminate E.
        + simpl. destruct (after_profile_effect b w
                             (snd (addLog "Filling Profile details..." "info" w
                                (snd (addLog "Entered Password" "info" w
                                   (emit (EType password_selector (password b) (Some 100%Z))
                                      (emit (EWaitForSelector password_selector None) s1)))))))
            as (Hbrowser & _). simpl in Hbrowser. rewrite Hbrowser. exact Hb1.
      - apply bind_call; [intros e He; leaf He | intros errorEl _].
        destruct errorEl as [el|].
        + apply bind_call; [intros e He; leaf He | intros text _].
          apply bind_call; [intros e He; leaf He | intros frames _].
          destruct (find (JsString.includes "arkoselabs") frames);
            intros ? ? E; discriminate E.
        + rewrite bind_outcome. simpl.
          apply bind_call; [intros e He; leaf He | intros frames _].
          destruct (find (JsString.includes "arkoselabs") frames);
            intros ? ? E; discriminate E. }
    destruct nextBtn as [btn|].
    - do 2 walk_step. cbv beta. apply Hrest. exact Hb.
    - rewrite bind_outcome. simpl. apply Hrest. exact Hb. }
  apply bind_proxy_auth.
  - intros e He. apply credentials_args in He. congruence.
  - intros _. now apply Hpage.
  - intros username password _.
    apply bind_call; [intros e He; subst Q; leaf He | intros [] _].
    now apply Hpage.
Qed.

(* ================================================================== *)
(** ** The claims about the answer *)
(* ================================================================== *)

(** A request whose [try] body does not throw is answered once, with status
    200 and a verdict on the page. *)
Lemma unescaped_answer (b : Body) (w : World) :
  (forall e, ~ escapes b w e) ->
  exists url body,
    on_url w = inr url
    /\ responses (trace (run b w)) = [(200%Z, body)]
    /\ classified w url body.
Proof.
  intros Hno. destruct (escapes_or_returns b w) as [[e He] | [s Hs]].
  - now destruct (Hno e).
  - now apply return_responses with (s := s).
Qed.



(** The claim C2 as the specification words it fails on the profile inputs:
    the year input throws (its selector is missing), the exception does not
    reach the outer [catch], and the request is answered with status 200 and
    [success] true. *)
Lemma C2_counterexample :
  on_type_year no_year_input
  = inl (Error.make "No element found for selector: input#year")
  /\ In (year_event alice) (trace (run alice no_year_input))
  /\ (forall e, ~ escapes alice no_year_input e)
  /\ responses (trace (run alice no_year_input))
     = [(200%Z, success_body (log (run alice no_year_input)))].
Proof.
  split; [reflexivity|]. split; [|split].
  - vm_compute. repeat (first [left; reflexivity | right]).
  - intros e [s H]. vm_compute in H. discriminate H.
  - vm_compute. reflexivity.
Qed.

(** C8: when a profile input throws, the inner [try]/[catch] still returns:
    it has attempted the inputs up to the one that threw and has added the
    warning to the log, and nothing else; in the whole run the attempt is
    followed by the warning and by the click on Submit; and an exception that
    does reach the outer [catch] was thrown by another step. *)
Theorem C8_profile_failure_is_local (b : Body) (w : World) (e : Error.t) :
  profile_error w = Some e ->
  (forall s,
      fill_profile b w s = (inr tt, after_profile b w s)
      /\ log (after_profile b w s) = log s ++ [warning (clock w (length (log s)))]
      /\ browser (after_profile b w s) = browser s
      /\ responses (trace (after_profile b w s)) = responses (trace s))
  /\ (forall pre post,
         trace (run b w) = pre ++ year_event b :: post ->
         In (EClick submit_selector) post
         /\ exists stamp, In (EPush (warning stamp)) post)
  /\ (forall e' s, signup b w initial = (inl e', s) ->
                   thrown_outside_profile b w e').
Proof.
  intros Herr. split; [|split].
  - intros s. split; [apply fill_profile_runs|].
    destruct (after_profile_effect b w s) as (Hb & Hr & _ & Hl & _).
    rewrite Herr in Hl. auto.
  - intros pre post E. destruct (run_submit_follows b w pre post E) as [Hclick Hwarn].
    split; [exact Hclick|]. apply Hwarn. congruence.
  - intros e' s. apply escape_blame.
Qed.

Lemma C8_witness :
  (forall s,
      fill_profile alice no_year_input s = (inr tt, after_profile alice no_year_input s)
      /\ log (after_profile alice no_year_input s)
         = log s ++ [warning (clock no_year_input (length (log s)))]
      /\ browser (after_profile alice no_year_input s) = browser s
      /\ responses (trace (after_profile alice no_year_input s)) = responses (trace s))
  /\ (forall pre post,
         trace (run alice no_year_input) = pre ++ year_event alice :: post ->
         In (EClick submit_selector) post
         /\ exists stamp, In (EPush (warning stamp)) post)
  /\ (forall e' s, signup alice no_year_input initial = (inl e', s) ->
                   thrown_outside_profile alice no_year_input e').
Proof.
  apply (C8_profile_failure_is_local alice no_year_input
           (Error.make "No element found for selector: input#year")).
  reflexivity.
Defined.

(** When the [browser.close()] of the [catch] block throws, the handler has
    logged the exception but answers nothing: its promise is rejected with
    the error of the [finally] block, and the answer, if any, is left to the
    framework. *)
Lemma failed_cleanup_leaves_no_answer :
  escapes alice stuck (Error.make "Navigation timeout of 60000 ms exceeded")
  /\ responses (trace (run alice stuck)) = []
  /\ completion alice stuck
     = inl (Error.make "EPERM: operation not permitted, unlink")
  /\ closes (trace (run alice stuck)) = 2.
Proof.
  split; [|split; [|split]]; try reflexivity.
  eexists. reflexivity.
Qed.

(* ================================================================== *)
(** ** The claims on concrete requests *)
(* ================================================================== *)

Lemma C5_witness :
  exists (flag : bool) (items : list Json),
    get "success" (success_body (log (run alice signed_up))) = Some (JBool flag)
    /\ get "logs" (success_body (log (run alice signed_up))) = Some (JArray items)
    /\ (flag = true ->
        get "error" (success_body (log (run alice signed_up))) = None)
    /\ (flag = false ->
        exists msg,
          get "error" (success_body (log (run alice signed_up)))
          = Some (JString msg)).
Proof.
  apply (C5_response_shape alice signed_up 200).
  vm_compute. repeat (first [left; reflexivity | right]).
Defined.

Lemma C6_witness :
  get "logs" (failure_body (log (run alice timed_out))
                           "Navigation timeout of 60000 ms exceeded")
  = Some (JArray (map entry_json
                      (pushed (firstn 10 (trace (run alice timed_out))))))
  /\ (forall entry,
         In entry (pushed (firstn 10 (trace (run alice timed_out)))) ->
         entry_json entry
         = JObject [("message", JString (message entry));
                    ("type", JString (type entry));
                    ("timestamp", JString (timestamp entry))]
         /\ In (type entry) categories)
  /\ exists later,
       log (run alice timed_out)
       = pushed (firstn 10 (trace (run alice timed_out))) ++ later.
Proof.
  apply (C6_log_records_in_order alice timed_out
           (firstn 10 (trace (run alice timed_out))) [EClose 1] 500).
  reflexivity.
Defined.

(** The claim C6 as worded fails on the name of a field: the records have
    the keys [message], [type] and [timestamp], and none called
    [category]. *)
Lemma C6_counterexample :
  In (mkLogEntry "Initiating Browser for: alice@example.com" "info" "12:00:00 PM")
     (log (run alice signed_up))
  /\ keys (entry_json (mkLogEntry "Initiating Browser for: alice@example.com"
                                  "info" "12:00:00 PM"))
     = ["message"; "type"; "timestamp"]
  /\ get "category"
         (entry_json (mkLogEntry "Initiating Browser for: alice@example.com"
                                 "info" "12:00:00 PM"))
     = None.
Proof.
  split; [|split; reflexivity].
  vm_compute. left. reflexivity.
Qed.

Lemma C3_witness :
  length (launches (trace (run alice signed_up))) = 1
  /\ exists pre, trace (run alice signed_up) = pre ++ [EClose 1].
Proof.
  destruct (C3_one_browser_always_closed alice signed_up)
    as (_ & Hone & _ & Hclose).
  split.
  - apply Hone; reflexivity.
  - apply Hclose; [discriminate | reflexivity].
Defined.

Lemma C4_witness :
  launches (trace (run (alice_via (VString "10.0.0.1:8080:bob:secret")) signed_up))
  = [base_args ++ ["--proxy-server=10.0.0.1:8080"]]
  /\ authentications
       (trace (run (alice_via (VString "10.0.0.1:8080:bob:secret")) signed_up))
     = [("bob", "secret")].
Proof.
  destruct (C4_proxy_forms (alice_via (VString "10.0.0.1:8080:bob:secret")) signed_up)
    as (_ & Hfour & _).
  apply (Hfour "10.0.0.1:8080:bob:secret" "10.0.0.1" "8080" "bob" "secret");
    reflexivity.
Defined.

Lemma C9_witness :
  launches (trace (run (alice_via (VString "10.0.0.1:8080:bob")) signed_up))
  = [base_args ++ ["--proxy-server=10.0.0.1:8080"]]
  /\ authentications
       (trace (run (alice_via (VString "10.0.0.1:8080:bob")) signed_up))
     = [].
Proof.
  destruct (C9_proxy_part_counts (alice_via (VString "10.0.0.1:8080:bob")) signed_up)
    as (Hthree & _).
  apply (Hthree "10.0.0.1:8080:bob" "10.0.0.1" "8080" "bob"); reflexivity.
Defined.

(* ================================================================== *)
(** * Further properties of the handler *)
(* ================================================================== *)

(** ** Counting the calls of [browser.close()] *)

Lemma closes_emit (ev : Event) (s : State) :
  closes (trace (emit ev s)) = closes (trace s) + (if is_close ev then 1 else 0).
Proof. simpl. rewrite closes_app. now destruct ev. Qed.

Lemma closes_addLog (msg ty : string) (w : World) (s : State) :
  closes (trace (snd (addLog msg ty w s))) = closes (trace s).
Proof. simpl. rewrite closes_app. simpl. apply Nat.add_0_r. Qed.

Lemma page_is_up_quiet (launched : Browser) :
  Quiet (page_is_up launched) before_verdict.
Proof.
  split.
  - intros ev s Hev (Hr & Hc & Hb). repeat split.
    + unfold no_response. rewrite responses_silent; [exact Hr | now destruct ev].
    + rewrite closes_emit, Hc. now destruct ev.
    + exact Hb.
  - intros msg ty w s _ (Hr & Hc & Hb). repeat split.
    + unfold no_response. now rewrite responses_addLog.
    + now rewrite closes_addLog.
    + exact Hb.
Qed.

(** Counts the calls of [browser.close()] in the trace of a state that was
    built from a state whose count is a hypothesis. *)
Ltac tally :=
  repeat (rewrite closes_emit || rewrite closes_addLog);
  cbn [trace emit snd addLog fst] in *;
  rewrite ?closes_app in *; cbn in *; lia.

(** ** The classification, in full *)

(** What the classification leaves, whether it returns or throws. *)
Lemma classify_report (w : World) (s : State) (launched : Browser) :
  page_is_up launched s ->
  match classify w s with
  | (inl e, s') => thrown_state w e s' /\ browser s' = Some launched
  | (inr _, s') => verdict_reported w s' /\ browser s' = Some launched
  end.
Proof.
  intros (Hr & Hc & Hb). unfold classify.
  assert (Hquiet : forall ev s0,
             is_response ev = false -> is_close ev = false ->
             page_is_up launched s0 -> page_is_up launched (emit ev s0)).
  { intros ev s0 Hev Hcl (Hr0 & Hc0 & Hb0). repeat split.
    - unfold no_response. now rewrite responses_silent.
    - now rewrite closes_emit, Hc0, Hcl.
    - exact Hb0. }
  assert (Hthrown : forall e s0, page_is_up launched s0 ->
             thrown_state w e s0 /\ browser s0 = Some launched).
  { intros e s0 (Hr0 & Hc0 & Hb0). repeat split; auto. }
  apply bind_call; [intros e _; apply Hthrown; now apply Hquiet | intros url Hurl].
  destruct (success_url url) eqn:Hsuccess.
  - (* a success marker: log it, close the browser, answer *)
    apply bind_addLog. rewrite bind_outcome.
    rewrite browser_close_cases with (launched := launched) by exact Hb.
    rewrite closes_addLog, closes_emit, Hc. simpl (0 + _).
    destruct (on_close w 0) as [e|[]] eqn:Hclose.
    + split; [|exact Hb]. split.
      * unfold no_response. simpl. rewrite !responses_app. simpl.
        now rewrite !app_nil_r.
      * right. split; [|split; [exact Hclose|split]].
        -- rewrite closes_emit, closes_addLog, closes_emit, Hc. reflexivity.
        -- now exists url.
        -- now exists (log s), (clock w (length (log s))).
    + split; [|exact Hb].
      exists url, (log s), (clock w (length (log s))).
      split; [exact Hurl|]. rewrite Hsuccess.
      split; [first [exact Hclose | reflexivity]|]. split; [|split].
      * rewrite !closes_emit, closes_addLog, closes_emit, Hc. reflexivity.
      * simpl. rewrite !responses_app. simpl. rewrite !app_nil_r.
        unfold no_response in Hr. now rewrite Hr.
      * reflexivity.
  - (* no success marker *)
    apply bind_call; [intros e _; apply Hthrown; now repeat apply Hquiet
                     | intros errorEl _].
    assert (Hverdict :
      forall (text : string) (s0 : State),
        page_is_up launched s0 ->
        match (frames <- call EFrames on_frames ;;
               match find (JsString.includes "arkoselabs") frames with
               | Some arkoseFrame =>
                   addLog "FAILED: Captcha Challenge Triggered. Automation detected." "error" ;;
                   l <- get_log ;;
                   res_json 200 (failure_body l captcha_message)
               | None =>
                   addLog ("Failed: " ++ text) "error" ;;
                   l <- get_log ;;
                   res_json 200 (failure_body l text)
               end) w s0 with
        | (inl e, s') => thrown_state w e s' /\ browser s' = Some launched
        | (inr _, s') => verdict_reported w s' /\ browser s' = Some launched
        end).
    { intros text s0 H0.
      apply bind_call; [intros e _; apply Hthrown; now apply Hquiet
                       | intros frames _].
      assert (H1 : page_is_up launched (emit EFrames s0)) by now apply Hquiet.
      destruct H1 as (Hr1 & Hc1 & Hb1).
      destruct (find (JsString.includes "arkoselabs") frames).
      - split; [|exact Hb1].
        exists url, (log s0), (clock w (length (log s0))).
        split; [exact Hurl|]. rewrite Hsuccess. split.
        + tally.
        + exists captcha_message. split; [|right; now split].
          simpl. rewrite !responses_app. simpl. rewrite !app_nil_r.
          unfold no_response in Hr1. simpl in Hr1. rewrite responses_app in Hr1.
          simpl in Hr1. rewrite app_nil_r in Hr1. now rewrite Hr1.
      - split; [|exact Hb1].
        exists url, (log s0), (clock w (length (log s0))).
        split; [exact Hurl|]. rewrite Hsuccess. split.
        + tally.
        + exists text. split; [|now left].
          simpl. rewrite !responses_app. simpl. rewrite !app_nil_r.
          unfold no_response in Hr1. simpl in Hr1. rewrite responses_app in Hr1.
          simpl in Hr1. rewrite app_nil_r in Hr1. now rewrite Hr1. }
    assert (H1 : page_is_up launched (emit (EQuery error_selector) (emit EUrl s)))
      by (repeat apply Hquiet; auto; now repeat split).
    destruct errorEl as [el|].
    + apply bind_call; [intros e _; apply Hthrown; now apply Hquiet
                       | intros text _].
      apply Hverdict. now apply Hquiet.
    + rewrite bind_outcome. simpl ret. cbv iota beta. now apply Hverdict.
Qed.

(** ** The [try] body, in full *)

Lemma page_is_up_thrown (w : World) (e : Error.t) (launched : Browser) (s : State) :
  page_is_up launched s -> thrown_state w e s.
Proof. intros (Hr & Hc & _). split; auto. Qed.

Lemma stable_page_fill_form (launched : Browser) (b : Body) :
  stable (page_is_up launched) (fill_form b).
Proof. unfold fill_form. stable_steps (page_is_up_quiet launched). Qed.

(** What the [try] body leaves, whether it returns or throws. *)
Lemma signup_report (b : Body) (w : World) :
  match signup b w initial with
  | (inl e, s) =>
      thrown_state w e s /\ (browser s = None -> closes (trace s) = 0)
  | (inr _, s) => verdict_reported w s /\ exists launched, browser s = Some launched
  end.
Proof.
  set (Q := fun o : Outcome unit =>
              match o with
              | (inl e, s) =>
                  thrown_state w e s /\ (browser s = None -> closes (trace s) = 0)
              | (inr _, s) =>
                  verdict_reported w s /\ exists launched, browser s = Some launched
              end).
  change (Q (signup b w initial)). unfold signup.
  assert (Hearly : forall e s, no_response s -> closes (trace s) = 0 -> Q (inl e, s)).
  { intros e s Hr Hc. split; [split|]; auto. }
  assert (Hlate : forall e launched s, page_is_up launched s -> Q (inl e, s)).
  { intros e launched s H. split; [now apply (page_is_up_thrown w e launched)|].
    destruct H as (_ & Hc & _). auto. }
  apply bind_lift; [intros e _; now apply Hearly | intros who _].
  apply bind_addLog.
  apply bind_launch_args; [intros e _; now apply Hearly | intros args _].
  apply bind_call; [intros e _; now apply Hearly | intros launched _].
  apply bind_set_browser.
  assert (Hup : page_is_up launched
                  (emit ENewPage
                     (mkState
                        (log (emit (ELaunch "new" args)
                                (snd (addLog ("Initiating Browser for: " ++ who)
                                        "info" w initial))))
                        (Some launched)
                        (trace (emit (ELaunch "new" args)
                                  (snd (addLog ("Initiating Browser for: " ++ who)
                                          "info" w initial)))))))
    by now repeat split.
  apply bind_call; [intros e _; now apply (Hlate e launched) | intros [] _].
  assert (Hpage : forall s, page_is_up launched s ->
                            Q ((fill_form b ;; classify) w s)).
  { apply bind_stable with (I := page_is_up launched) (Q := Q).
    - apply stable_page_fill_form.
    - intros e s. apply Hlate.
    - intros _ s H. pose proof (classify_report w s launched H) as Hrep.
      subst Q. cbv beta. destruct (classify w s) as [[e|[]] s'].
      + split; [apply Hrep|]. destruct Hrep as [_ Hb]. rewrite Hb. discriminate.
      + split; [apply Hrep|]. exists launched. apply Hrep. }
  apply bind_proxy_auth.
  - intros e _. now apply (Hlate e launched).
  - intros _. now apply Hpage.
  - intros username password _.
    apply bind_call.
    + intros e _. apply (Hlate e launched).
      now apply (I_emit (page_is_up_quiet launched)).
    + intros [] _. apply Hpage.
      now apply (I_emit (page_is_up_quiet launched)).
Qed.

(** ** The outer [catch] and the [finally], in full *)

Lemma close_if_launched_cases (w : World) (s : State) :
  close_if_launched w s
  = match browser s with
    | Some launched =>
        (on_close w (closes (trace s)), emit (EClose launched) s)
    | None => (inr tt, s)
    end.
Proof.
  unfold close_if_launched, browser_close. now destruct (browser s).
Qed.

(** The [finally] after a [try] body that returned. *)
Lemma settle_returned (w : World) (s : State) :
  settle w (inr tt, s)
  = match browser s with
    | Some launched =>
        (on_close w (closes (trace s)), emit (EClose launched) s)
    | None => (inr tt, s)
    end.
Proof.
  unfold settle. rewrite close_if_launched_cases.
  destruct (browser s); [|reflexivity].
  now destruct (on_close w (closes (trace s))) as [e|[]].
Qed.

(** The outer [catch] and the [finally] after a [try] body that threw. *)
Lemma settle_thrown (w : World) (e : Error.t) (s : State) :
  let s1 := snd (addLog ("Critical Error: " ++ Error.message e) "error" w s) in
  let answer := ERespond 500 (failure_body (log s1) (Error.message e)) in
  settle w (inl e, s)
  = match browser s with
    | None => (inr tt, emit answer s1)
    | Some launched =>
        match on_close w (closes (trace s)) with
        | inl e1 =>
            (match on_close w (S (closes (trace s))) with
             | inl e2 => inl e2
             | inr _ => inl e1
             end,
             emit (EClose launched) (emit (EClose launched) s1))
        | inr _ =>
            (on_close w (S (closes (trace s))),
             emit (EClose launched) (emit answer (emit (EClose launched) s1)))
        end
    end.
Proof.
  cbv zeta. unfold settle. rewrite on_error_cases.
  destruct (browser s) as [launched|] eqn:Hb.
  - destruct (on_close w (closes (trace s))) as [e1|[]];
      rewrite close_if_launched_cases; cbn [browser emit snd addLog];
      rewrite Hb;
      match goal with
      | |- context [on_close w (closes ?tr)] =>
          replace (closes tr) with (S (closes (trace s))) by (symmetry; tally)
      end;
      now destruct (on_close w (S (closes (trace s)))) as [e2|[]].
  - rewrite close_if_launched_cases. cbn [browser emit snd addLog].
    now rewrite Hb.
Qed.

(** A request is served in one of two ways: the [try] body returns, and the
    [finally] follows; or it throws, and the outer [catch] and the [finally]
    follow. *)
Lemma run_cases (b : Body) (w : World) :
  (exists s launched,
      signup b w initial = (inr tt, s)
      /\ verdict_reported w s
      /\ browser s = Some launched
      /\ api_create b w initial
         = (on_close w (closes (trace s)), emit (EClose launched) s))
  \/ (exists e s,
         signup b w initial = (inl e, s)
         /\ thrown_state w e s
         /\ (browser s = None -> closes (trace s) = 0)
         /\ api_create b w initial = settle w (inl e, s)).
Proof.
  pose proof (signup_report b w) as H. rewrite api_create_settle.
  destruct (signup b w initial) as [[e|[]] s].
  - right. destruct H as [Ht Hn]. now exists e, s.
  - left. destruct H as [Hv [launched Hb]]. exists s, launched.
    repeat split; auto. now rewrite settle_returned, Hb.
Qed.

(* ================================================================== *)
(** ** Answers and completion *)
(* ================================================================== *)

(** X1: the handler never answers twice; and it answers nothing exactly when
    the [try] body threw with a launched browser and the [browser.close()]
    of the [catch] block threw as well. *)
Theorem at_most_one_answer (b : Body) (w : World) :
  length (responses (trace (run b w))) <= 1
  /\ (responses (trace (run b w)) = []
      <-> exists e s launched e',
            signup b w initial = (inl e, s)
            /\ browser s = Some launched
            /\ on_close w (closes (trace s)) = inl e').
Proof.
  destruct (escapes_or_returns b w) as [[e [s He]] | [s Hs]].
  - rewrite (escape_responses _ _ _ _ He). split.
    + destruct (browser s); [destruct (on_close w _)|]; simpl; lia.
    + split.
      * intros Hnone. destruct (browser s) as [launched|] eqn:Hb;
          [|discriminate Hnone].
        destruct (on_close w (closes (trace s))) as [e'|] eqn:Hc;
          [|discriminate Hnone].
        now exists e, s, launched, e'.
      * intros (e0 & s0 & launched & e' & Hs0 & Hb & Hc).
        rewrite He in Hs0. injection Hs0 as <- <-. now rewrite Hb, Hc.
  - destruct (return_responses _ _ _ Hs) as (url & body & _ & Hresp & _).
    rewrite Hresp. split; [simpl; lia|]. split; [discriminate|].
    intros (e0 & s0 & _ & _ & Hs0 & _). congruence.
Qed.

(** X2: when the promise of the handler is rejected, a browser was launched
    and the promise is rejected with an error of [browser.close()], thrown by
    one of the (at most three) calls of the handler: either by its last call,
    the one of the [finally] block; or by the call of the [catch] block, and
    then the call of the [finally] block followed at once and resolved, and
    nothing was answered.  An exception of the [try] body itself is never
    passed on. *)
Theorem rejection_is_a_close_error (b : Body) (w : World) (e : Error.t) :
  completion b w = inl e ->
  exists launched before,
    browser (run b w) = Some launched
    /\ trace (run b w) = before ++ [EClose launched]
    /\ closes before <= 2
    /\ (on_close w (closes before) = inl e
        \/ (on_close w (closes before) = inr tt
            /\ responses (trace (run b w)) = []
            /\ exists earlier,
                before = earlier ++ [EClose launched]
                /\ on_close w (closes earlier) = inl e)).
Proof.
  unfold completion, run.
  destruct (run_cases b w) as [(s & launched & _ & Hv & Hb & ->)
                              | (e0 & s & _ & Ht & _ & ->)].
  - cbn [fst snd]. intros Hc.
    exists launched, (trace s).
    split; [exact Hb|]. split; [reflexivity|]. split; [|now left].
    destruct Hv as (url & earlier & stamp & _ & Hv).
    destruct (success_url url);
      [destruct Hv as (_ & -> & _) | destruct Hv as (-> & _)]; lia.
  - rewrite settle_thrown.
    destruct Ht as (Hquiet & Hcount).
    assert (Hle : closes (trace s) <= 1) by (destruct Hcount as [-> | [-> _]]; lia).
    destruct (browser s) as [launched|] eqn:Hb; [|discriminate].
    destruct (on_close w (closes (trace s))) as [e1|[]] eqn:Hc1;
      destruct (on_close w (S (closes (trace s)))) as [e2|[]] eqn:Hc2;
      cbn [fst snd]; intros He; try discriminate He; injection He as <-.
    + eexists launched, _. split; [exact Hb|]. split; [reflexivity|].
      replace (closes _) with (S (closes (trace s))) by (symmetry; tally).
      split; [lia | now left].
    + eexists launched, _. split; [exact Hb|]. split; [reflexivity|].
      replace (closes _) with (S (closes (trace s))) by (symmetry; tally).
      split; [lia|]. right. split; [exact Hc2|]. split.
      * unfold no_response in Hquiet. simpl. rewrite !responses_app, Hquiet.
        reflexivity.
      * eexists. split; [reflexivity|].
        replace (closes _) with (closes (trace s)) by (symmetry; tally).
        exact Hc1.
    + eexists launched, _. split; [exact Hb|]. split; [reflexivity|].
      replace (closes _) with (S (closes (trace s))) by (symmetry; tally).
      split; [lia | now left].
Qed.

Lemma rejection_is_a_close_error_witness :
  exists launched before,
    browser (run alice cleanup_fails_once) = Some launched
    /\ trace (run alice cleanup_fails_once) = before ++ [EClose launched]
    /\ closes before <= 2
    /\ (on_close cleanup_fails_once (closes before)
        = inl (Error.make "EPERM: operation not permitted, unlink")
        \/ (on_close cleanup_fails_once (closes before) = inr tt
            /\ responses (trace (run alice cleanup_fails_once)) = []
            /\ exists earlier,
                before = earlier ++ [EClose launched]
                /\ on_close cleanup_fails_once (closes earlier)
                   = inl (Error.make "EPERM: operation not permitted, unlink"))).
Proof.
  apply (rejection_is_a_close_error alice cleanup_fails_once).
  vm_compute. reflexivity.
Defined.

(** X3: when no call of [browser.close()] throws, the promise of the handler
    is fulfilled and the request is answered exactly once. *)
Theorem resolves_when_close_resolves (b : Body) (w : World) :
  (forall n, on_close w n = inr tt) ->
  completion b w = inr tt
  /\ exists st body, responses (trace (run b w)) = [(st, body)].
Proof.
  intros Hclose. split.
  - unfold completion.
    destruct (run_cases b w) as [(s & launched & _ & _ & _ & ->)
                                | (e0 & s & _ & _ & _ & ->)].
    + apply Hclose.
    + rewrite settle_thrown. destruct (browser s); [|reflexivity].
      rewrite !Hclose. reflexivity.
  - destruct (escapes_or_returns b w) as [[e [s He]] | [s Hs]].
    + rewrite (escape_responses _ _ _ _ He), Hclose.
      destruct (browser s); eexists; eexists; reflexivity.
    + destruct (return_responses _ _ _ Hs) as (url & body & _ & Hresp & _).
      now exists 200%Z, body.
Qed.

Lemma resolves_when_close_resolves_witness :
  completion alice timed_out = inr tt
  /\ exists st body, responses (trace (run alice timed_out)) = [(st, body)].
Proof.
  apply (resolves_when_close_resolves alice timed_out). reflexivity.
Defined.

(* ================================================================== *)
(** ** Failures before the browser is up *)
(* ================================================================== *)

(** The [try] body of a request whose browser does not come up. *)
Lemma early_escape (b : Body) (w : World) (e : Error.t) :
  early_error b w = Some e ->
  exists s,
    signup b w initial = (inl e, s)
    /\ browser s = None
    /\ log s = greeting b w
    /\ forall ev, In ev (trace s) -> uses_browser ev = false.
Proof.
  unfold early_error, greeting. intros H. unfold signup.
  apply bind_lift.
  - intros e0 He0. rewrite He0 in *. injection H as <-.
    exists initial. repeat split. intros ev [].
  - intros who Hwho. rewrite Hwho in *. apply bind_addLog.
    apply bind_launch_args.
    + intros e0 He0. rewrite He0 in *. injection H as <-.
      eexists. split; [reflexivity|]. repeat split.
      intros ev Hin. simpl in Hin.
      repeat (destruct Hin as [<- | Hin]; [reflexivity|]). contradiction.
    + intros args Hargs. rewrite Hargs in *. apply bind_call.
      * intros e0 He0. rewrite He0 in *. injection H as <-.
        eexists. split; [reflexivity|]. repeat split.
        intros ev Hin. simpl in Hin.
        repeat (destruct Hin as [<- | Hin]; [reflexivity|]). contradiction.
      * intros launched Hl. rewrite Hl in H. discriminate H.
Qed.

(** The whole run of such a request. *)
Lemma early_failure_run (b : Body) (w : World) (e : Error.t) :
  early_error b w = Some e ->
  escapes b w e
  /\ completion b w = inr tt
  /\ log (run b w) = greeting b w ++ [critical_record e (clock w (length (greeting b w)))]
  /\ responses (trace (run b w))
     = [(500%Z, failure_body (log (run b w)) (Error.message e))]
  /\ browser (run b w) = None
  /\ forall ev, In ev (trace (run b w)) -> uses_browser ev = false.
Proof.
  intros H. destruct (early_escape b w e H) as (s & Hs & Hb & Hlog & Hquiet).
  pose proof (signup_outcome b w) as Hr. rewrite Hs in Hr.
  split; [now exists s|].
  unfold completion, run. rewrite api_create_settle, Hs, settle_thrown, Hb.
  cbn [fst snd]. repeat split.
  - simpl. now rewrite Hlog.
  - simpl. rewrite !responses_app. simpl. unfold no_response in Hr.
    now rewrite Hr.
  - simpl. exact Hb.
  - intros ev Hin. simpl in Hin. rewrite <- app_assoc in Hin.
    apply in_app_or in Hin. destruct Hin as [Hin | Hin]; [now apply Hquiet|].
    simpl in Hin. repeat (destruct Hin as [<- | Hin]; [reflexivity|]).
    contradiction.
Qed.

(** X4: when the browser does not come up (the email cannot be written into
    the log, or the proxy cannot be split, or the launch is rejected), the
    handler touches neither a page nor a browser, not even to close one; it
    logs the critical error after at most the greeting, answers once with
    status 500, the message of the exception and that log, and its promise
    is fulfilled. *)
Theorem early_failure_is_reported (b : Body) (w : World) (e : Error.t) :
  early_error b w = Some e ->
  escapes b w e
  /\ completion b w = inr tt
  /\ log (run b w) = greeting b w ++ [critical_record e (clock w (length (greeting b w)))]
  /\ responses (trace (run b w))
     = [(500%Z, failure_body (log (run b w)) (Error.message e))]
  /\ browser (run b w) = None
  /\ forall ev, In ev (trace (run b w)) -> uses_browser ev = false.
Proof. apply early_failure_run. Qed.

Lemma early_failure_is_reported_witness :
  escapes alice (world_with (inl (Error.make "Failed to launch the browser process!"))
                            (inr tt) (inr tt) "about:blank" None [] closing)
          (Error.make "Failed to launch the browser process!")
  /\ completion alice
       (world_with (inl (Error.make "Failed to launch the browser process!"))
                   (inr tt) (inr tt) "about:blank" None [] closing)
     = inr tt.
Proof.
  destruct (early_failure_is_reported
              alice
              (world_with (inl (Error.make "Failed to launch the browser process!"))
                          (inr tt) (inr tt) "about:blank" None [] closing)
              (Error.make "Failed to launch the browser process!") eq_refl)
    as (H1 & H2 & _).
  now split.
Defined.

(** X5: a proxy that is given but is not a string (a number, [true], an
    array, an object) has no [split]: no browser is launched, and the request
    is answered with status 500 and the error [proxy.split is not a
    function]. *)
Theorem proxy_must_be_a_string (b : Body) (w : World) :
  truthy (proxy b) = true ->
  (forall p, proxy b <> VString p) ->
  resolves (ToString (email b)) = true ->
  launches (trace (run b w)) = []
  /\ exists body,
      responses (trace (run b w)) = [(500%Z, body)]
      /\ get "success" body = Some (JBool false)
      /\ get "error" body = Some (JString "proxy.split is not a function").
Proof.
  intros Htruthy Hnot Hemail.
  assert (Hargs : proxy_args (proxy b)
                  = inl (TypeError "proxy.split is not a function")).
  { unfold proxy_args. rewrite Htruthy.
    destruct (proxy b) as [| | | |p|]; try reflexivity. now destruct (Hnot p). }
  split.
  - destruct (run_effects b w) as (Hl & _). rewrite Hl.
    unfold expected_launches. rewrite Hargs. now destruct (ToString (email b)).
  - assert (Hearly : early_error b w
                     = Some (TypeError "proxy.split is not a function")).
    { unfold early_error. rewrite Hargs.
      destruct (ToString (email b)); [discriminate Hemail | reflexivity]. }
    destruct (early_failure_run b w _ Hearly) as (_ & _ & _ & Hresp & _).
    eexists. split; [exact Hresp|]. split; reflexivity.
Qed.

Lemma proxy_must_be_a_string_witness :
  launches (trace (run alice_numeric_proxy signed_up)) = []
  /\ exists body,
      responses (trace (run alice_numeric_proxy signed_up)) = [(500%Z, body)]
      /\ get "success" body = Some (JBool false)
      /\ get "error" body = Some (JString "proxy.split is not a function").
Proof.
  apply (proxy_must_be_a_string alice_numeric_proxy signed_up).
  - reflexivity.
  - intros p H. discriminate H.
  - reflexivity.
Defined.

(* ================================================================== *)
(** ** The colons of the proxy string *)
(* ================================================================== *)

(** X6: what a proxy string leads to depends on the number of its colons
    only: the launch gets a [--proxy-server] argument exactly when the string
    has a colon, and the page authenticates only when it has exactly three
    (so a password that contains a colon turns the authentication off). *)
Theorem proxy_colons (b : Body) (w : World) (p : string) :
  proxy b = VString p ->
  launches (trace (run b w))
  = (if resolves (ToString (email b))
     then [if (JsString.count ":" p =? 0)%nat then base_args
           else base_args ++ [proxy_server (JsString.split ":" p)]]
     else [])
  /\ (JsString.count ":" p <> 3 -> authentications (trace (run b w)) = [])
  /\ (JsString.count ":" p = 3 ->
      authentications (trace (run b w))
      = (if resolves (ToString (email b)) && resolves (on_launch w)
            && resolves (on_newPage w)
         then [(nth 2 (JsString.split ":" p) EmptyString,
                nth 3 (JsString.split ":" p) EmptyString)]
         else [])).
Proof.
  intros Hp. destruct (run_effects b w) as (Hl & Ha & _). rewrite Hl, Ha.
  unfold expected_authentications, expected_browser, expected_launches,
    proxy_args, credentials.
  rewrite Hp. cbv zeta. pose proof (split_length ":" p) as Hlen.
  assert (Hargs :
    (if truthy (VString p)
     then inr (if (2 <=? length (JsString.split ":" p))%nat
               then base_args ++ [proxy_server (JsString.split ":" p)]
               else base_args)
     else inr base_args)
    = (inr (if (JsString.count ":" p =? 0)%nat then base_args
            else base_args ++ [proxy_server (JsString.split ":" p)])
       : Error.t + list string)).
  { destruct p as [|c p']; [reflexivity|]. cbn [truthy String.eqb negb].
    rewrite Hlen.
    destruct (JsString.count ":" (String c p')) as [|n]; reflexivity. }
  rewrite Hargs. split; [|split].
  - now destruct (ToString (email b)).
  - intros Hcount.
    assert (H4 : (length (JsString.split ":" p) =? 4)%nat = false)
      by (apply Nat.eqb_neq; lia).
    rewrite H4.
    destruct (ToString (email b)); [reflexivity|].
    destruct (on_launch w); [reflexivity|].
    destruct (on_newPage w); [reflexivity|]. now destruct (truthy (VString p)).
  - intros Hcount.
    assert (H4 : (length (JsString.split ":" p) =? 4)%nat = true)
      by (apply Nat.eqb_eq; lia).
    rewrite H4.
    assert (Htruthy : truthy (VString p) = true)
      by (destruct p; [discriminate Hcount | reflexivity]).
    rewrite Htruthy.
    assert (Hnth :
      (nth 2 (JsString.split ":" p) "undefined", nth 3 (JsString.split ":" p) "undefined")
      = (nth 2 (JsString.split ":" p) EmptyString, nth 3 (JsString.split ":" p) EmptyString)).
    { apply Nat.eqb_eq in H4.
      destruct (JsString.split ":" p) as [|? [|? [|? [|? ?]]]]; try discriminate H4.
      reflexivity. }
    rewrite Hnth. simpl.
    destruct (ToString (email b)); [reflexivity|].
    destruct (on_launch w); [reflexivity|]. now destruct (on_newPage w).
Qed.

Lemma proxy_colons_witness :
  launches (trace (run (alice_via (VString "10.0.0.1:8080:bob:se:cret")) signed_up))
  = [base_args ++ ["--proxy-server=10.0.0.1:8080"]]
  /\ authentications
       (trace (run (alice_via (VString "10.0.0.1:8080:bob:se:cret")) signed_up))
     = [].
Proof.
  destruct (proxy_colons (alice_via (VString "10.0.0.1:8080:bob:se:cret")) signed_up
                         "10.0.0.1:8080:bob:se:cret" eq_refl)
    as (Hl & Ha & _).
  split; [exact Hl | apply Ha; discriminate].
Defined.

(** X7: a proxy string with exactly one colon is handed to the browser as it
    is: the launch has the argument [--proxy-server=] followed by the
    string. *)
Theorem proxy_host_port_verbatim (b : Body) (w : World) (p : string) :
  proxy b = VString p ->
  JsString.count ":" p = 1 ->
  resolves (ToString (email b)) = true ->
  launches (trace (run b w)) = [base_args ++ [("--proxy-server=" ++ p)%string]].
Proof.
  intros Hp Hcount Hemail.
  destruct (run_effects b w) as (Hl & _). rewrite Hl.
  unfold expected_launches, proxy_args. rewrite Hp. cbv zeta.
  pose proof (split_length ":" p) as Hlen. rewrite Hcount in Hlen.
  pose proof (join_split ":" p) as Hjoin.
  assert (Htruthy : truthy (VString p) = true)
    by (destruct p; [discriminate Hcount | reflexivity]).
  rewrite Htruthy.
  destruct (JsString.split ":" p) as [|host [|port [|? ?]]]; try discriminate Hlen.
  cbn [JsString.join] in Hjoin.
  destruct (ToString (email b)); [discriminate Hemail|].
  cbn [length Nat.leb]. unfold proxy_server. cbn [nth].
  rewrite <- Hjoin. reflexivity.
Qed.

Lemma proxy_host_port_verbatim_witness :
  launches (trace (run (alice_via (VString "proxy.example.com:3128")) signed_up))
  = [base_args ++ ["--proxy-server=proxy.example.com:3128"]].
Proof.
  apply (proxy_host_port_verbatim (alice_via (VString "proxy.example.com:3128"))
                                  signed_up "proxy.example.com:3128");
    reflexivity.
Defined.

(* ================================================================== *)
(** ** The console *)
(* ================================================================== *)

Lemma consoles_app (tr1 tr2 : list Event) :
  consoles (tr1 ++ tr2) = consoles tr1 ++ consoles tr2.
Proof. apply flat_map_app. Qed.

Lemma console_mirror_quiet : Quiet console_mirrors_log external.
Proof.
  split; unfold console_mirrors_log.
  - intros ev s Hev H. simpl. rewrite consoles_app, H.
    destruct ev; try discriminate Hev; apply app_nil_r.
  - intros msg ty w s _ H. simpl. rewrite consoles_app, H, map_app. reflexivity.
Qed.

Lemma console_mirror_answering : answering console_mirrors_log.
Proof.
  intros st body s H _. unfold console_mirrors_log in *. simpl.
  rewrite consoles_app, H. apply app_nil_r.
Qed.

(** X8: what the handler prints is its log: the lines on the console are the
    records of the log, in the same order, each as its category in upper
    case between brackets followed by its message. *)
Theorem console_mirrors_the_log (b : Body) (w : World) :
  consoles (trace (run b w)) = map console_line (log (run b w))
  /\ forall entry, In entry (log (run b w)) ->
       In (console_line entry)
          ["[INFO] " ++ message entry; "[NETWORK] " ++ message entry;
           "[WARNING] " ++ message entry; "[SUCCESS] " ++ message entry;
           "[ERROR] " ++ message entry]%string.
Proof.
  split.
  - apply (stable_api_create _ b console_mirror_quiet).
    + intros launched w' s H. exact H.
    + exact console_mirror_answering.
    + reflexivity.
  - intros entry Hin.
    destruct (log_in_order_run b w) as (_ & _ & Hcat).
    specialize (Hcat entry Hin). unfold console_line. simpl in Hcat.
    destruct Hcat as [<- | [<- | [<- | [<- | [<- | []]]]]]; simpl; auto 6.
Qed.

(* ================================================================== *)
(** ** The log an answer carries *)
(* ================================================================== *)

(** The answers of a run, read off the two ways a request is served. *)
Lemma run_answers (b : Body) (w : World) :
  (exists s launched,
      signup b w initial = (inr tt, s)
      /\ verdict_reported w s
      /\ log (run b w) = log s
      /\ responses (trace (run b w)) = responses (trace s)
      /\ closes (trace (run b w)) = S (closes (trace s))
      /\ browser (run b w) = Some launched)
  \/ (exists e s,
         signup b w initial = (inl e, s)
         /\ thrown_state w e s
         /\ log (run b w)
            = log s ++ [critical_record e (clock w (length (log s)))]
         /\ browser (run b w) = browser s
         /\ match browser s with
            | None =>
                closes (trace (run b w)) = 0
                /\ responses (trace (run b w))
                   = [(500%Z, failure_body (log (run b w)) (Error.message e))]
            | Some _ =>
                closes (trace (run b w)) = S (S (closes (trace s)))
                /\ match on_close w (closes (trace s)) with
                   | inl _ => responses (trace (run b w)) = []
                   | inr _ =>
                       responses (trace (run b w))
                       = [(500%Z, failure_body (log (run b w)) (Error.message e))]
                   end
            end).
Proof.
  unfold run.
  destruct (run_cases b w) as [(s & launched & Hs & Hv & Hb & ->)
                              | (e & s & Hs & Ht & Hn & ->)].
  - left. exists s, launched. cbn [snd]. repeat split; auto.
    + simpl. rewrite responses_app. apply app_nil_r.
    + rewrite closes_emit. simpl. lia.
  - right. exists e, s. rewrite settle_thrown.
    pose proof Ht as (Hr & _). unfold no_response in Hr.
    split; [exact Hs|]. split; [exact Ht|].
    destruct (browser s) as [launched|] eqn:Hb.
    + destruct (on_close w (closes (trace s))) as [e1|[]]; cbn [snd].
      * split; [reflexivity|]. split; [exact Hb|]. split.
        -- rewrite !closes_emit, closes_addLog. simpl. lia.
        -- simpl. rewrite !responses_app, Hr. reflexivity.
      * split; [reflexivity|]. split; [exact Hb|]. split.
        -- rewrite !closes_emit, closes_addLog. simpl. lia.
        -- simpl. rewrite !responses_app, Hr. reflexivity.
    + cbn [snd]. split; [reflexivity|]. split; [exact Hb|]. split.
      * rewrite closes_emit, closes_addLog, Nat.add_0_r. now apply Hn.
      * simpl. rewrite !responses_app, Hr. reflexivity.
Qed.

(** X9: an answer carries the whole log of the request (nothing is logged
    once the answer is sent), and the last record of that log tells what the
    answer says: the success record when the answer has no [error]; an
    [error] record otherwise, with [Critical Error: ] and the error for
    status 500, and for status 200 either [Failed: ] and the error or the
    CAPTCHA record beside the CAPTCHA error. *)
Theorem answer_carries_the_log (b : Body) (w : World) (st : Z) (body : Json) :
  In (ERespond st body) (trace (run b w)) ->
  get "logs" body = Some (logs_json (log (run b w)))
  /\ exists earlier last,
      log (run b w) = earlier ++ [last]
      /\ match get "error" body with
         | None =>
             st = 200%Z
             /\ type last = "success"
             /\ message last = "Account Successfully Created!"
         | Some (JString error) =>
             type last = "error"
             /\ ((st = 500%Z /\ message last = ("Critical Error: " ++ error)%string)
                 \/ (st = 200%Z /\ message last = ("Failed: " ++ error)%string)
                 \/ (st = 200%Z /\ error = captcha_message
                     /\ message last
                        = "FAILED: Captcha Challenge Triggered. Automation detected."))
         | Some _ => False
         end.
Proof.
  intros Hin. apply in_responses in Hin.
  destruct (run_answers b w)
    as [(s & launched & _ & Hv & Hlog & Hresp & _)
       | (e & s & _ & _ & Hlog & _ & Hcases)].
  - rewrite Hresp in Hin. rewrite Hlog.
    destruct Hv as (url & earlier & stamp & _ & Hv).
    destruct (success_url url).
    + destruct Hv as (_ & _ & Hr & Hl). rewrite Hr in Hin.
      destruct Hin as [Hin | []]. injection Hin as <- <-.
      split; [reflexivity|]. exists earlier, (success_record stamp).
      split; [exact Hl|]. now repeat split.
    + destruct Hv as (_ & error & Hr & Hl). rewrite Hr in Hin.
      destruct Hin as [Hin | []]. injection Hin as <- <-.
      split; [reflexivity|]. destruct Hl as [Hl | [-> Hl]].
      * exists earlier, (mkLogEntry ("Failed: " ++ error) "error" stamp).
        split; [exact Hl|]. simpl. auto.
      * eexists earlier, _. split; [exact Hl|]. simpl. auto 6.
  - assert (Hanswer :
      responses (trace (run b w))
      = [(500%Z, failure_body (log (run b w)) (Error.message e))] ->
      get "logs" body = Some (logs_json (log (run b w)))
      /\ exists earlier last,
          log (run b w) = earlier ++ [last]
          /\ match get "error" body with
             | None =>
                 st = 200%Z
                 /\ type last = "success"
                 /\ message last = "Account Successfully Created!"
             | Some (JString error) =>
                 type last = "error"
                 /\ ((st = 500%Z /\ message last = ("Critical Error: " ++ error)%string)
                     \/ (st = 200%Z /\ message last = ("Failed: " ++ error)%string)
                     \/ (st = 200%Z /\ error = captcha_message
                         /\ message last
                            = "FAILED: Captcha Challenge Triggered. Automation detected."))
             | Some _ => False
             end).
    { intros Hr. rewrite Hr in Hin. destruct Hin as [Hin | []].
      injection Hin as <- <-. split; [reflexivity|].
      exists (log s), (critical_record e (clock w (length (log s)))).
      split; [exact Hlog|]. simpl. auto. }
    destruct (browser s); [|now apply Hanswer].
    destruct Hcases as [_ Hcases].
    destruct (on_close w (closes (trace s))); [|now apply Hanswer].
    rewrite Hcases in Hin. contradiction.
Qed.

Lemma answer_carries_the_log_witness :
  get "logs" (failure_body (log (run alice challenged)) captcha_message)
  = Some (logs_json (log (run alice challenged))).
Proof.
  apply (answer_carries_the_log alice challenged 200
           (failure_body (log (run alice challenged)) captcha_message)).
  vm_compute. repeat (first [left; reflexivity | right]).
Defined.

(* ================================================================== *)
(** ** How often the browser is closed *)
(* ================================================================== *)

(** X10: [browser.close()] is called at most three times per request, and
    not at all exactly when no browser was launched; it has been called
    twice when the handler answers [success] true (once before the answer,
    once in the [finally]) and once when it answers a classified failure. *)
Theorem close_counts (b : Body) (w : World) :
  closes (trace (run b w)) <= 3
  /\ (closes (trace (run b w)) = 0 <-> browser (run b w) = None)
  /\ (forall st body,
         In (ERespond st body) (trace (run b w)) ->
         get "success" body = Some (JBool true) ->
         closes (trace (run b w)) = 2)
  /\ (forall body,
         In (ERespond 200 body) (trace (run b w)) ->
         get "success" body = Some (JBool false) ->
         closes (trace (run b w)) = 1).
Proof.
  destruct (run_answers b w)
    as [(s & launched & _ & Hv & _ & Hresp & Hc & Hb)
       | (e & s & _ & Ht & _ & Hb & Hcases)].
  - destruct Hv as (url & earlier & stamp & _ & Hv).
    rewrite Hc, Hb.
    destruct (success_url url).
    + destruct Hv as (_ & Hcs & Hr & _). rewrite Hcs.
      split; [lia|]. split; [split; discriminate|]. split; [reflexivity|].
      intros body Hin Hfalse. apply in_responses in Hin.
      rewrite Hresp, Hr in Hin. destruct Hin as [Hin | []].
      injection Hin as <-. discriminate Hfalse.
    + destruct Hv as (Hcs & error & Hr & _). rewrite Hcs.
      split; [lia|]. split; [split; discriminate|]. split; [|reflexivity].
      intros st body Hin Htrue. apply in_responses in Hin.
      rewrite Hresp, Hr in Hin. destruct Hin as [Hin | []].
      injection Hin as <- <-. discriminate Htrue.
  - rewrite Hb.
    assert (Hle : closes (trace s) <= 1)
      by (destruct Ht as (_ & [-> | [-> _]]); lia).
    assert (Hfalse : forall st body,
               In (ERespond st body) (trace (run b w)) ->
               st = 500%Z /\ get "success" body = Some (JBool false)).
    { intros st body Hin. apply in_responses in Hin.
      destruct (browser s);
        [destruct Hcases as [_ Hcases]; destruct (on_close w (closes (trace s)))
        | destruct Hcases as [_ Hcases]];
        rewrite Hcases in Hin; try contradiction;
        destruct Hin as [Hin | []]; injection Hin as <- <-; now split. }
    split; [|split; [|split]].
    + destruct (browser s); destruct Hcases as [-> _]; lia.
    + destruct (browser s); destruct Hcases as [-> _];
        split; (discriminate || reflexivity).
    + intros st body Hin Htrue. destruct (Hfalse st body Hin) as [_ H].
      congruence.
    + intros body Hin _. destruct (Hfalse 200%Z body Hin) as [H _].
      discriminate H.
Qed.

(** X11: when the [try] body throws after it has called [browser.close()],
    that call is what threw: the page showed success and the success was
    logged, but the request is not reported as created.  The browser is
    closed three times in all, and an answer, if one is sent, has status
    500, [success] false and the error of the close, with the success
    record in its log. *)
Theorem failed_close_hides_success (b : Body) (w : World) (e : Error.t) (s : State) :
  signup b w initial = (inl e, s) ->
  closes (trace s) <> 0 ->
  on_close w 0 = inl e
  /\ (exists url, on_url w = inr url /\ shows_success url)
  /\ (exists stamp, In (success_record stamp) (log (run b w)))
  /\ closes (trace (run b w)) = 3
  /\ forall st body,
       In (ERespond st body) (trace (run b w)) ->
       st = 500%Z
       /\ get "success" body = Some (JBool false)
       /\ get "error" body = Some (JString (Error.message e))
       /\ get "logs" body = Some (logs_json (log (run b w))).
Proof.
  intros Hs Hclosed.
  destruct (run_answers b w)
    as [(s' & launched & Hs' & _) | (e' & s' & Hs' & Ht & Hlog & Hb & Hcases)];
    [congruence|].
  rewrite Hs in Hs'. injection Hs' as <- <-.
  destruct Ht as (_ & [Hzero | (Hone & Hclose & (url & Hurl & Hsuccess) & earlier & stamp & Hl)]);
    [contradiction|].
  split; [exact Hclose|]. split; [exists url; split; [exact Hurl | now apply success_url_spec]|].
  split.
  { exists stamp. rewrite Hlog, Hl. apply in_or_app. left.
    apply in_or_app. right. now left. }
  destruct (browser s) as [launched|].
  - destruct Hcases as [Hc Hcases]. split; [rewrite Hc, Hone; reflexivity|].
    intros st body Hin. apply in_responses in Hin.
    destruct (on_close w (closes (trace s))); rewrite Hcases in Hin;
      [contradiction|].
    destruct Hin as [Hin | []]. injection Hin as <- <-. now repeat split.
  - destruct Hcases as [Hc _].
    assert (Hrun : closes (trace (run b w)) >= closes (trace s)).
    { unfold run. rewrite api_create_settle, Hs, settle_thrown. cbn [snd].
      destruct (browser s); [destruct (on_close w (closes (trace s)))|];
        cbn [snd]; rewrite ?closes_emit, closes_addLog; lia. }
    lia.
Qed.

Lemma failed_close_hides_success_witness :
  on_close created_then_close_fails 0
  = inl (Error.make "EBUSY: resource busy or locked")
  /\ (exists url, on_url created_then_close_fails = inr url /\ shows_success url)
  /\ (exists stamp,
         In (success_record stamp) (log (run alice created_then_close_fails)))
  /\ closes (trace (run alice created_then_close_fails)) = 3
  /\ forall st body,
       In (ERespond st body) (trace (run alice created_then_close_fails)) ->
       st = 500%Z
       /\ get "success" body = Some (JBool false)
       /\ get "error" body = Some (JString "EBUSY: resource busy or locked")
       /\ get "logs" body
          = Some (logs_json (log (run alice created_then_close_fails))).
Proof.
  apply (failed_close_hides_success
           alice created_then_close_fails
           (Error.make "EBUSY: resource busy or locked")
           (snd (signup alice created_then_close_fails initial))).
  - vm_compute. reflexivity.
  - vm_compute. discriminate.
Defined.

(* ================================================================== *)
(** ** The fixed pauses *)
(* ================================================================== *)

Lemma slept_app (tr1 tr2 : list Event) :
  slept (tr1 ++ tr2) = (slept tr1 + slept tr2)%Z.
Proof.
  induction tr1 as [|ev tr1 IH]; [reflexivity|].
  simpl. rewrite IH. destruct ev; lia.
Qed.

Lemma paused_quiet (n : Z) : Quiet (paused n) not_sleep.
Proof.
  split; unfold paused.
  - intros ev s Hev H. simpl. rewrite slept_app, H.
    destruct ev; try discriminate Hev; simpl; lia.
  - intros msg ty w s _ H. simpl. rewrite slept_app, H. simpl. lia.
Qed.

Lemma paused_answering (n : Z) : answering (paused n).
Proof.
  intros st body s H _. unfold paused in *. simpl.
  rewrite slept_app, H. simpl. lia.
Qed.

Lemma paused_sleep (n ms : Z) (s : State) :
  paused n s -> paused (n + ms) (emit (ESleep ms) s).
Proof. unfold paused. intros H. simpl. rewrite slept_app, H. simpl. lia. Qed.

(** A run of steps without a pause. *)
Ltac unpaused n Hthrow :=
  repeat (lazymatch goal with
          | |- forall s, _ -> _ (bind (effect _) _ _ s) => fail
          | |- forall s, _ -> _ (bind (call (EQuery next_selector) _) _ _ s) => fail
          | |- forall s, _ -> _ (bind _ _ _ s) => idtac
          end;
          apply bind_stable with (I := paused n);
          [ solve [stable_steps (paused_quiet n)]
          | intros ? ? ?; eapply Hthrow; eassumption
          | intros ? ]).

(** The pauses of the form filling: half a second after the email, a second
    after the click on the Next button when there is one, three seconds
    after the submit. *)
Lemma fill_form_pauses (b : Body) (w : World) (Q : Outcome unit -> Prop) :
  (forall e s n, (0 <= n <= 1500)%Z -> paused n s -> Q (inl e, s)) ->
  (forall s, paused (3500 + next_pause w) s -> Q (inr tt, s)) ->
  forall s, paused 0 s -> Q (fill_form b w s).
Proof.
  intros Hthrow Hreturn. unfold fill_form, sleep.
  assert (H0 : forall e s, paused 0 s -> Q (inl e, s))
    by (intros e s; apply Hthrow; lia).
  assert (H500 : forall e s, paused 500 s -> Q (inl e, s))
    by (intros e s; apply Hthrow; lia).
  assert (H1500 : forall e s, paused 1500 s -> Q (inl e, s))
    by (intros e s; apply Hthrow; lia).
  unpaused 0%Z H0.
  intros s H. apply bind_effect.
  apply (paused_sleep 0 500) in H. simpl (0 + 500)%Z in H.
  apply bind_call;
    [intros e _; apply H500; now apply (I_emit (paused_quiet 500))
    | intros nextBtn Hnext].
  unfold next_pause in Hreturn. rewrite Hnext in Hreturn.
  assert (H1 : paused 500 (emit (EQuery next_selector) (emit (ESleep 500) s)))
    by now apply (I_emit (paused_quiet 500)).
  destruct nextBtn as [btn|].
  - rewrite bind_assoc.
    apply bind_call;
      [intros e _; apply H500; now apply (I_emit (paused_quiet 500))
      | intros [] _].
    apply bind_effect.
    assert (H' : paused 1500
                   (emit (ESleep 1000)
                      (emit (EHandleClick btn) (emit (EQuery next_selector)
                                                     (emit (ESleep 500) s))))).
    { apply (paused_sleep 500 1000).
      now apply (I_emit (paused_quiet 500)). }
    revert H'. generalize (emit (ESleep 1000)
                      (emit (EHandleClick btn) (emit (EQuery next_selector)
                                                     (emit (ESleep 500) s)))).
    unpaused 1500%Z H1500.
    intros s' H'. apply Hreturn. now apply (paused_sleep 1500 3000).
  - rewrite bind_outcome. cbn [ret].
    revert H1. generalize (emit (EQuery next_selector) (emit (ESleep 500) s)).
    unpaused 500%Z H500.
    intros s' H'. apply Hreturn. now apply (paused_sleep 500 3000).
Qed.

(** The pauses of the [try] body. *)
Lemma signup_pauses (b : Body) (w : World) :
  match signup b w initial with
  | (inl e, s) =>
      (0 <= slept (trace s) <= 1500)%Z \/ paused (3500 + next_pause w) s
  | (inr _, s) => paused (3500 + next_pause w) s
  end.
Proof.
  set (Q := fun o : Outcome unit =>
              match o with
              | (inl e, s) =>
                  (0 <= slept (trace s) <= 1500)%Z \/ paused (3500 + next_pause w) s
              | (inr _, s) => paused (3500 + next_pause w) s
              end).
  assert (Hthrow : forall e s n, (0 <= n <= 1500)%Z -> paused n s -> Q (inl e, s)).
  { intros e s n Hn H. left. unfold paused in H. now rewrite H. }
  assert (H0 : forall e s, paused 0 s -> Q (inl e, s))
    by (intros e s; apply Hthrow; lia).
  assert (Hstart : paused 0 initial) by reflexivity.
  revert Hstart. generalize initial.
  change (forall s, paused 0 s -> Q (signup b w s)). unfold signup.
  repeat (lazymatch goal with
          | |- forall s, _ -> _ (bind (fill_form _) _ _ s) => fail
          | |- _ => idtac
          end;
          apply bind_stable with (I := paused 0%Z) (Q := Q);
          [ first [ solve [stable_steps (paused_quiet 0)]
                  | intros ? ? ?; assumption ]
          | exact H0 | intros ? ]).
  intros s H. rewrite bind_outcome.
  assert (Hsil : forall ev, after_submit ev = true -> not_sleep ev = true)
    by now intros [].
  apply fill_form_pauses
    with (Q := fun o : Outcome unit =>
                 Q (match o with
                    | (inr _, s') => classify w s'
                    | (inl e, s') => (inl e, s')
                    end)); [| |exact H].
  - exact Hthrow.
  - intros s' H'.
    pose proof (stable_classify _ _ (paused_quiet (3500 + next_pause w)) Hsil
                  (paused_answering (3500 + next_pause w)) w s' H') as Hc.
    destruct (classify w s') as [[e|[]] s'']; [now right | exact Hc].
Qed.

(** X12: the fixed pauses of a request add up to at most four and a half
    seconds; a request whose [try] body returns has paused for three and a
    half seconds, and for one second more when the page has a Next button;
    and no answer with status 200 is sent before these pauses. *)
Theorem fixed_pauses (b : Body) (w : World) :
  (0 <= slept (trace (run b w)) <= 4500)%Z
  /\ ((forall e, ~ escapes b w e) ->
      slept (trace (run b w)) = (3500 + next_pause w)%Z)
  /\ (forall body,
         In (ERespond 200 body) (trace (run b w)) ->
         slept (trace (run b w)) = (3500 + next_pause w)%Z).
Proof.
  assert (Hsil : forall ev, after_submit ev = true -> not_sleep ev = true)
    by now intros [].
  assert (Hkeep :
    forall n o, paused n (snd o) -> paused n (snd (settle w o))).
  { intros n o. apply (stable_settle _ _ (paused_quiet n) Hsil (paused_answering n)). }
  assert (Hnext : (0 <= next_pause w <= 1000)%Z).
  { unfold next_pause. destruct (on_query_next w) as [|[|]]; lia. }
  pose proof (signup_pauses b w) as Hp.
  assert (Hreturned :
    forall s, signup b w initial = (inr tt, s) ->
              slept (trace (run b w)) = (3500 + next_pause w)%Z).
  { intros s Hs. rewrite Hs in Hp. unfold run. rewrite api_create_settle, Hs.
    now apply (Hkeep _ (inr tt, s)). }
  split; [|split].
  - unfold run. rewrite api_create_settle.
    destruct (signup b w initial) as [[e|[]] s].
    + destruct Hp as [Hp | Hp].
      * rewrite (Hkeep (slept (trace s)) (inl e, s) eq_refl). lia.
      * rewrite (Hkeep _ (inl e, s) Hp). lia.
    + rewrite (Hkeep _ (inr tt, s) Hp). lia.
  - intros Hno. destruct (escapes_or_returns b w) as [[e He] | [s Hs]].
    + now destruct (Hno e).
    + now apply Hreturned with (s := s).
  - intros body Hin. destruct (escapes_or_returns b w) as [[e [s He]] | [s Hs]].
    + apply in_responses in Hin. rewrite (escape_responses _ _ _ _ He) in Hin.
      destruct (browser s); [destruct (on_close w _)|];
        simpl in Hin; try contradiction;
        destruct Hin as [Hin | []]; discriminate Hin.
    + now apply Hreturned with (s := s).
Qed.

Lemma fixed_pauses_witness :
  slept (trace (run alice signed_up)) = (3500 + next_pause signed_up)%Z.
Proof.
  destruct (fixed_pauses alice signed_up) as (_ & H & _).
  apply H. intros e [s He]. vm_compute in He. discriminate He.
Defined.

(* ================================================================== *)
(** ** The order of the calls *)
(* ================================================================== *)

(** A trace whose only event of a kind is its last is cut at an event of
    that kind at its end only. *)
Lemma cut_at_end (kind : Event -> bool) (tr pre post : list Event) (x y : Event) :
  (forall ev, In ev tr -> kind ev = false) ->
  kind y = true ->
  tr ++ [x] = pre ++ y :: post ->
  pre = tr /\ y = x /\ post = [].
Proof.
  intros Htr Hy. revert pre.
  induction tr as [|a tr IH]; intros pre E.
  - destruct pre as [|c pre]; simpl in E.
    + injection E as -> <-. auto.
    + injection E as _ E. now destruct pre.
  - destruct pre as [|c pre]; simpl in E.
    + injection E as -> _. rewrite Htr in Hy by now left. discriminate.
    + injection E as -> E. apply IH in E.
      * destruct E as (-> & -> & ->). auto.
      * intros ev Hin. apply Htr. now right.
Qed.

Lemma no_goto_prepared (b : Body) (s : State) :
  (forall ev, In ev (trace s) -> is_goto ev = false) ->
  navigation_prepared b s.
Proof.
  intros H pre post url waitUntil timeout E.
  assert (Hin : In (EGoto url waitUntil timeout) (trace s))
    by (rewrite E; apply in_or_app; right; now left).
  apply H in Hin. discriminate Hin.
Qed.

Lemma navigation_emit (b : Body) (ev : Event) (s : State) :
  is_goto ev = false ->
  navigation_prepared b s -> navigation_prepared b (emit ev s).
Proof.
  intros Hev H pre post url waitUntil timeout E. simpl in E.
  apply snoc_cut in E. destruct E as [(_ & _ & E) | (post' & _ & E)].
  - subst ev. discriminate Hev.
  - now apply (H pre post' url waitUntil timeout).
Qed.

Lemma navigation_quiet (b : Body) : Quiet (navigation_prepared b) not_goto.
Proof.
  split.
  - intros ev s Hev. apply navigation_emit.
    unfold not_goto in Hev. now destruct (is_goto ev).
  - intros msg ty w s _ H pre post url waitUntil timeout E. simpl in E.
    match type of E with
    | ?tr ++ [?c; ?p] = _ =>
        replace (tr ++ [c; p]) with ((tr ++ [c]) ++ [p]) in E
          by now rewrite <- app_assoc
    end.
    apply snoc_cut in E.
    destruct E as [(_ & _ & E) | (post' & _ & E)]; [discriminate E|].
    apply snoc_cut in E.
    destruct E as [(_ & _ & E) | (post'' & _ & E)]; [discriminate E|].
    now apply (H pre post'' url waitUntil timeout).
Qed.

Lemma navigation_answering (b : Body) : answering (navigation_prepared b).
Proof. intros st body s H _. now apply navigation_emit. Qed.

(** The navigation, once the page is prepared. *)
Lemma fill_form_navigates (b : Body) (w : World) (s : State) :
  (forall ev, In ev (trace s) -> is_goto ev = false) ->
  page_prepared b (trace s) ->
  navigation_prepared b (snd ((fill_form b ;; classify) w s)).
Proof.
  intros Hnone Hprepared.
  assert (Hsil : forall ev, after_submit ev = true -> not_goto ev = true)
    by now intros [].
  set (Q := fun o : Outcome unit => navigation_prepared b (snd o)).
  change (Q ((fill_form b ;; classify) w s)).
  unfold fill_form. rewrite bind_assoc. apply bind_addLog. rewrite bind_assoc.
  assert (Hgoto :
    navigation_prepared b
      (emit (EGoto "https://www.spotify.com/signup" "networkidle2" 60000)
            (snd (addLog "Navigating to Spotify Signup..." "network" w s)))).
  { intros pre post url waitUntil timeout E. simpl in E.
    apply cut_at_end with (kind := is_goto) in E; [| |reflexivity].
    - destruct E as (-> & E & _). injection E as -> _ _.
      split; [|reflexivity].
      destruct Hprepared as ((args & Hl) & Hn & Ha & Hp).
      split; [exists args; apply in_or_app; now left|].
      split; [apply in_or_app; now left|].
      split.
      + intros username password Hc. apply in_or_app. left. now apply Ha.
      + intros ev Hin. apply in_app_or in Hin.
        destruct Hin as [Hin | [<- | [<- | []]]]; [now apply Hp | reflexivity..].
    - intros ev Hin. apply in_app_or in Hin.
      destruct Hin as [Hin | [<- | [<- | []]]]; [now apply Hnone | reflexivity..]. }
  apply bind_call; [intros e _; exact Hgoto | intros [] _].
  revert Hgoto.
  generalize (emit (EGoto "https://www.spotify.com/signup" "networkidle2" 60000)
                   (snd (addLog "Navigating to Spotify Signup..." "network" w s))).
  subst Q. cbv beta. intros s0 H0.
  apply (stable_bind (navigation_prepared b)); [| |exact H0].
  - stable_steps (navigation_quiet b).
  - intros _.
    apply (stable_classify _ _ (navigation_quiet b) Hsil (navigation_answering b)).
Qed.

Ltac no_navigation :=
  let ev := fresh "ev" in
  let Hin := fresh "Hin" in
  intros ev Hin; simpl in Hin;
  repeat (destruct Hin as [<- | Hin]; [reflexivity|]);
  contradiction.

(** In every run, the navigation comes after the page was prepared. *)
Lemma run_navigation_prepared (b : Body) (w : World) :
  navigation_prepared b (run b w).
Proof.
  assert (Hsil : forall ev, after_submit ev = true -> not_goto ev = true)
    by now intros [].
  unfold run. rewrite api_create_settle.
  apply (stable_settle _ _ (navigation_quiet b) Hsil (navigation_answering b)).
  set (Q := fun o : Outcome unit => navigation_prepared b (snd o)).
  change (Q (signup b w initial)). unfold signup.
  assert (Hnone : forall e s,
             (forall ev, In ev (trace s) -> is_goto ev = false) -> Q (inl e, s)).
  { intros e s H. now apply no_goto_prepared. }
  apply bind_lift; [intros e _; apply Hnone; no_navigation | intros who _].
  apply bind_addLog.
  apply bind_launch_args; [intros e _; apply Hnone; no_navigation | intros args _].
  apply bind_call; [intros e _; apply Hnone; no_navigation | intros launched _].
  apply bind_set_browser.
  apply bind_call; [intros e _; apply Hnone; no_navigation | intros [] _].
  apply bind_proxy_auth.
  - intros e _. apply Hnone. no_navigation.
  - intros Hc. apply fill_form_navigates; [no_navigation|].
    split; [exists args; simpl; auto|]. split; [simpl; auto|]. split.
    + intros username password Hc'. congruence.
    + no_navigation.
  - intros username password Hc.
    apply bind_call; [intros e _; apply Hnone; no_navigation | intros [] _].
    apply fill_form_navigates; [no_navigation|].
    split; [exists args; simpl; auto|]. split; [simpl; auto|]. split.
    + intros username' password' Hc'. rewrite Hc in Hc'.
      injection Hc' as <- <-. simpl. auto 6.
    + no_navigation.
Qed.

(** X13: the handler navigates only to the signup page, and only after it has
    launched the browser and opened the page and, when the proxy string has
    the four parts [host:port:user:password], after the page has
    authenticated with [user] and [password]; before the navigation nothing
    has been done on the page. *)
Theorem navigation_comes_prepared
        (b : Body) (w : World) (pre post : list Event)
        (url waitUntil : string) (timeout : Z) :
  trace (run b w) = pre ++ EGoto url waitUntil timeout :: post ->
  url = "https://www.spotify.com/signup"
  /\ (exists args, In (ELaunch "new" args) pre)
  /\ In ENewPage pre
  /\ (forall p host port user password,
         proxy b = VString p ->
         JsString.split ":" p = [host; port; user; password] ->
         In (EAuthenticate user password) pre)
  /\ (forall ev, In ev pre -> on_page ev = false)
  /\ forall ev, In ev pre -> is_goto ev = false.
Proof.
  intros E.
  destruct (run_navigation_prepared b w pre post url waitUntil timeout E)
    as (((args & Hl) & Hn & Ha & Hp) & Hurl).
  split; [exact Hurl|]. split; [now exists args|]. split; [exact Hn|].
  split; [|split; [exact Hp|]].
  - intros p host port user password Hproxy Hsplit. apply Ha.
    unfold credentials. rewrite Hproxy.
    rewrite split_truthy by (rewrite Hsplit; simpl; lia).
    cbv zeta. rewrite Hsplit. reflexivity.
  - intros ev Hin. specialize (Hp ev Hin). now destruct ev.
Qed.

Lemma navigation_comes_prepared_witness :
  In (EAuthenticate "bob" "secret")
     (firstn 7 (trace (run (alice_via (VString "10.0.0.1:8080:bob:secret"))
                           signed_up))).
Proof.
  assert (E : trace (run (alice_via (VString "10.0.0.1:8080:bob:secret")) signed_up)
              = firstn 7 (trace (run (alice_via (VString "10.0.0.1:8080:bob:secret"))
                                     signed_up))
                ++ EGoto "https://www.spotify.com/signup" "networkidle2" 60000
                :: skipn 8 (trace (run (alice_via (VString "10.0.0.1:8080:bob:secret"))
                                       signed_up)))
    by (vm_compute; reflexivity).
  destruct (navigation_comes_prepared
              (alice_via (VString "10.0.0.1:8080:bob:secret")) signed_up
              _ _ _ _ _ E)
    as (_ & _ & _ & Ha & _).
  apply (Ha "10.0.0.1:8080:bob:secret" "10.0.0.1" "8080" "bob" "secret");
    vm_compute; reflexivity.
Defined.

(* ================================================================== *)
(** ** The step that throws *)
(* ================================================================== *)

Lemma first_thrown_app (l1 l2 : list (Error.t + unit)) :
  first_thrown (l1 ++ l2)
  = match first_thrown l1 with
    | Some e => Some e
    | None => first_thrown l2
    end.
Proof. induction l1 as [|[e|u] l1 IH]; simpl; auto. Qed.

Lemma bind_ret {A B} (a : A) (k : A -> M B) (w : World) (s : State) :
  bind (ret a) k w s = k a w s.
Proof. reflexivity. Qed.

(** Rewrites the goal with the completions of the steps taken so far. *)
Ltac completions :=
  repeat match goal with
         | H : _ = inl _ |- _ => rewrite H; clear H
         | H : _ = inr _ |- _ => rewrite H; clear H
         | H : success_url _ = _ |- _ => rewrite H; clear H
         end.

(** Closes a leaf of a walk through the code: the steps taken so far, as
    the hypotheses have them, decide which step threw first. *)
Ltac decided :=
  cbv beta iota in *;
  unfold steps_to_page, steps_on_form, steps_of_verdict;
  completions; reflexivity.

(** The form is filled in up to the first step, other than the profile
    inputs, that throws. *)
Lemma fill_form_failure (b : Body) (w : World) (s : State) :
  match fill_form b w s with
  | (inl e, _) => first_thrown (steps_on_form w) = Some e
  | (inr _, _) => first_thrown (steps_on_form w) = None
  end.
Proof.
  set (Q := fun o : Outcome unit =>
              match o with
              | (inl e, _) => first_thrown (steps_on_form w) = Some e
              | (inr _, _) => first_thrown (steps_on_form w) = None
              end).
  change (Q (fill_form b w s)). unfold fill_form, sleep.
  apply bind_addLog.
  apply bind_call; [intros e He; subst Q; decided | intros [] Hgoto].
  apply bind_addLog.
  apply bind_call; [intros e He; subst Q; decided | intros [] Hwait].
  apply bind_call; [intros e He; subst Q; decided | intros [] Htype].
  apply bind_addLog. apply bind_effect.
  apply bind_call; [intros e He; subst Q; decided | intros nextBtn Hnext].
  assert (Hrest :
    forall s1,
      match nextBtn with
      | Some _ => on_click_next w = inr tt
      | None => True
      end ->
      Q ((call (EWaitForSelector password_selector None) on_wait_password ;;
          call (EType password_selector (password b) (Some 100%Z)) on_type_password ;;
          addLog "Entered Password" "info" ;;
          addLog "Filling Profile details..." "info" ;;
          fill_profile b ;;
          addLog "Clicking Submit..." "network" ;;
          call (EClick submit_selector) on_click_submit ;;
          addLog "Verifying submission..." "info" ;;
          effect (ESleep 3000)) w s1)).
  { intros s1 Hclick.
    apply bind_call; [intros e He; subst Q; destruct nextBtn; decided
                     | intros [] Hwaitp].
    apply bind_call; [intros e He; subst Q; destruct nextBtn; decided
                     | intros [] Htypep].
    apply bind_addLog. apply bind_addLog. apply bind_fill_profile.
    apply bind_addLog.
    apply bind_call; [intros e He; subst Q; destruct nextBtn; decided
                     | intros [] Hsubmit].
    apply bind_addLog. subst Q. unfold effect. destruct nextBtn; decided. }
  destruct nextBtn as [btn|]; cbv beta iota.
  - rewrite bind_assoc.
    apply bind_call; [intros e He; subst Q; decided | intros [] Hclick].
    apply bind_effect. apply Hrest. exact Hclick.
  - rewrite bind_ret. apply Hrest. exact I.
Qed.

(** The classification runs up to its first step that throws. *)
Lemma classify_failure (w : World) (s : State) (launched : Browser) :
  page_is_up launched s ->
  match classify w s with
  | (inl e, _) => first_thrown (steps_of_verdict w) = Some e
  | (inr _, _) => first_thrown (steps_of_verdict w) = None
  end.
Proof.
  intros (_ & Hc & Hb).
  set (Q := fun o : Outcome unit =>
              match o with
              | (inl e, _) => first_thrown (steps_of_verdict w) = Some e
              | (inr _, _) => first_thrown (steps_of_verdict w) = None
              end).
  change (Q (classify w s)). unfold classify.
  apply bind_call; [intros e He; subst Q; decided | intros url Hurl].
  destruct (success_url url) eqn:Hsuccess.
  - apply bind_addLog. rewrite bind_outcome.
    rewrite browser_close_cases with (launched := launched) by exact Hb.
    rewrite closes_addLog, closes_emit, Hc. simpl (0 + _).
    destruct (on_close w 0) as [e|[]] eqn:Hclose; subst Q;
      unfold bind, get_log, res_json, effect; decided.
  - apply bind_call; [intros e He; subst Q; decided | intros errorEl Herror].
    destruct errorEl as [el|].
    + apply bind_call; [intros e He; subst Q; decided | intros text Htext].
      apply bind_call; [intros e He; subst Q; decided | intros frames Hframes].
      subst Q. destruct (find (JsString.includes "arkoselabs") frames);
        unfold bind, addLog, get_log, res_json, effect; decided.
    + rewrite bind_ret.
      apply bind_call; [intros e He; subst Q; decided | intros frames Hframes].
      subst Q. destruct (find (JsString.includes "arkoselabs") frames);
        unfold bind, addLog, get_log, res_json, effect; decided.
Qed.

(** The [try] body throws the exception of the first step, other than the
    profile inputs, that throws; and it returns when there is none. *)
Lemma signup_failure (b : Body) (w : World) :
  match signup b w initial with
  | (inl e, _) => first_failure b w = Some e
  | (inr _, _) => first_failure b w = None
  end.
Proof.
  set (Q := fun o : Outcome unit =>
              match o with
              | (inl e, _) => first_failure b w = Some e
              | (inr _, _) => first_failure b w = None
              end).
  change (Q (signup b w initial)). unfold signup.
  assert (Hearly : forall e s,
             first_thrown (steps_to_page b w) = Some e -> Q (inl e, s)).
  { intros e s H. subst Q. cbv beta iota. unfold first_failure.
    now rewrite first_thrown_app, H. }
  assert (Hpage : forall launched s,
             page_is_up launched s ->
             first_thrown (steps_to_page b w) = None ->
             Q ((fill_form b ;; classify) w s)).
  { intros launched s Hup Hnone. rewrite bind_outcome.
    pose proof (fill_form_failure b w s) as Hform.
    pose proof (stable_page_fill_form launched b w s Hup) as Hup'.
    destruct (fill_form b w s) as [[e|[]] s1]; subst Q; cbv beta iota;
      unfold first_failure; rewrite !first_thrown_app, Hnone, Hform;
      [reflexivity|].
    cbn [snd] in Hup'. pose proof (classify_failure w s1 launched Hup') as Hv.
    destruct (classify w s1) as [[e|[]] s2]; exact Hv. }
  apply bind_lift; [intros e He; apply Hearly; decided | intros who Hwho].
  apply bind_addLog.
  apply bind_launch_args; [intros e He; apply Hearly; decided | intros args Hargs].
  apply bind_call; [intros e He; apply Hearly; decided | intros launched Hlaunch].
  apply bind_set_browser.
  apply bind_call; [intros e He; apply Hearly; decided | intros [] Hnew].
  apply bind_proxy_auth.
  - intros e He. apply credentials_args in He. congruence.
  - intros Hcred. apply (Hpage launched); [now repeat split | decided].
  - intros username password Hcred.
    apply bind_call; [intros e He; apply Hearly; decided | intros [] Hauth].
    apply (Hpage launched); [now repeat split | decided].
Qed.

(** An exception reaches the outer [catch] exactly when it is the exception
    of the first step, other than the profile inputs, that throws. *)
Lemma first_failure_escapes (b : Body) (w : World) (e : Error.t) :
  first_failure b w = Some e <-> escapes b w e.
Proof.
  pose proof (signup_failure b w) as H. unfold escapes.
  destruct (signup b w initial) as [[e0|[]] s].
  - split.
    + intros E. rewrite H in E. injection E as <-. now exists s.
    + intros [s' E]. injection E as <- _. exact H.
  - split; [intros E; congruence | intros [s' E]; discriminate E].
Qed.

Lemma no_failure_returns (b : Body) (w : World) :
  first_failure b w = None <-> forall e, ~ escapes b w e.
Proof.
  split.
  - intros Hnone e He. apply first_failure_escapes in He. congruence.
  - intros Hno. destruct (first_failure b w) as [e|] eqn:E; [|reflexivity].
    apply first_failure_escapes in E. now destruct (Hno e).
Qed.

(** An exception that reached the outer [catch] is answered with status 500,
    unless the [browser.close()] of the [catch] block throws. *)
Lemma escape_answer (b : Body) (w : World) (e : Error.t) (s : State) :
  signup b w initial = (inl e, s) ->
  browser s = None \/ on_close w (closes (trace s)) = inr tt ->
  exists body,
    responses (trace (run b w)) = [(500%Z, body)]
    /\ get "success" body = Some (JBool false)
    /\ get "error" body = Some (JString (Error.message e)).
Proof.
  intros Hs Hclose. rewrite (escape_responses _ _ _ _ Hs).
  destruct Hclose as [Hnone | Hclosed].
  - rewrite Hnone. eexists. repeat split.
  - rewrite Hclosed. destruct (browser s); eexists; repeat split.
Qed.

(** C2 (as amended): when a step of the [try] body other than the profile
    inputs throws - a navigation that times out, a selector that is missing,
    or any other step - the exception of the first such step reaches the
    outer [catch]; and when the [browser.close()] of the [catch] block
    resolves (or no browser was launched) it is reported: the one answer of
    the request has status 500, [success] false and [error] equal to the
    message of the exception.  No other exception reaches the outer [catch]:
    when each of these steps completes, whatever the profile inputs threw,
    the request is answered with status 200. *)
Theorem C2_escaped_exception_reported (b : Body) (w : World) :
  (forall e,
      first_failure b w = Some e ->
      exists s,
        signup b w initial = (inl e, s)
        /\ (browser s = None \/ on_close w (closes (trace s)) = inr tt ->
            exists body,
              responses (trace (run b w)) = [(500%Z, body)]
              /\ get "success" body = Some (JBool false)
              /\ get "error" body = Some (JString (Error.message e))))
  /\ (forall e, escapes b w e -> first_failure b w = Some e)
  /\ (first_failure b w = None ->
      (forall e, ~ escapes b w e)
      /\ exists body, responses (trace (run b w)) = [(200%Z, body)]).
Proof.
  split; [|split].
  - intros e He. apply first_failure_escapes in He. destruct He as [s Hs].
    exists s. split; [exact Hs|]. now apply escape_answer.
  - intros e. apply first_failure_escapes.
  - intros Hnone. pose proof (proj1 (no_failure_returns b w) Hnone) as Hno.
    split; [exact Hno|].
    destruct (unescaped_answer b w Hno) as (url & body & _ & Hresp & _).
    now exists body.
Qed.

Lemma C2_witness :
  exists s,
    signup alice no_password_input initial
    = (inl (Error.make "Waiting for selector failed: 30000ms exceeded"), s)
    /\ (browser s = None \/ on_close no_password_input (closes (trace s)) = inr tt ->
        exists body,
          responses (trace (run alice no_password_input)) = [(500%Z, body)]
          /\ get "success" body = Some (JBool false)
          /\ get "error" body
             = Some (JString "Waiting for selector failed: 30000ms exceeded")).
Proof.
  destruct (C2_escaped_exception_reported alice no_password_input)
    as (Hreported & _).
  apply (Hreported (Error.make "Waiting for selector failed: 30000ms exceeded")).
  vm_compute. reflexivity.
Defined.



